(** * bigml/dataset.py: local re-execution of dataset transformations

    A shallow embedding of [bigml.dataset] (the [Dataset] class and its two
    module-level helpers) together with the properties of the row builder,
    the transformation engine and the output assembler.

    Python values that can raise are modelled in an exception monad
    [result]; Python dictionaries whose iteration order is observable
    (input records, the resolved record, output records) are
    insertion-ordered association lists; the look-up tables of the field
    catalogue are finite maps. The collaborators that live in other modules
    of the package (the field catalogue constructor, [cast], the Flatline
    interpreter, the API connection) are parameters of the development. *)

From stdpp Require Import base option list strings gmap.
From Stdlib Require Import ZArith Lia.

Local Set Warnings "-register-all".

Open Scope string_scope.
Open Scope list_scope.
Open Scope nat_scope.

(** ** Python values, exceptions, dictionaries *)

(** The scalar values a row cell or a record entry holds ([VNone] is
    Python's [None], the "null" of the specification). *)
Inductive value : Type :=
  | VNone
  | VBool (b : bool)
  | VInt (z : Z)
  | VStr (s : string).

Global Instance value_eq_dec : EqDecision value.
Proof. solve_decision. Defined.

(** The exceptions the module can raise. Three [raise ValueError] sites
    are kept apart, named after the error kinds of the design:
    [NoOrigin] (get_inputs_sample), [ExpressionError] (the dry-run check in
    _transform) and [CastError] (raised inside [cast]). *)
Inductive exn : Type :=
  | NoOrigin
  | ExpressionError (msg : string)
  | CastError (msg : string)
  | AttributeError
  | TypeError
  | KeyError
  | IndexError
  | RecursionError.

Global Instance exn_eq_dec : EqDecision exn.
Proof. solve_decision. Defined.

Inductive result (A : Type) : Type :=
  | OK (a : A)
  | Raise (e : exn).
Arguments OK {A} a.
Arguments Raise {A} e.

Global Instance result_ret : MRet result := fun _ a => OK a.
Global Instance result_bind : MBind result := fun _ _ f m =>
  match m with
  | OK a => f a
  | Raise e => Raise e
  end.

(** [o ?! e]: the value of an attribute or of a subscript, raising [e]
    when it is missing. *)
Definition or_raise {A} (o : option A) (e : exn) : result A :=
  match o with
  | Some a => OK a
  | None => Raise e
  end.
Infix "?!" := or_raise (at level 45, left associativity).

Definition succeeds {A} (r : result A) : bool :=
  match r with
  | OK _ => true
  | Raise _ => false
  end.

Module Py.

(** A Python [dict] with string keys: the entries in insertion order.
    A dictionary built by [set] from the empty one has no repeated key. *)
Definition dict (V : Type) : Type := list (string * V).

Section Dict.
Context {V : Type}.

(** [d.get(k)] *)
Fixpoint get (k : string) (d : dict V) : option V :=
  match d with
  | [] => None
  | (k', v) :: d' => if decide (k = k') then Some v else get k d'
  end.

(** [d.update({k: v})], [d[k] = v]: an existing key keeps its place,
    a new key goes last. *)
Fixpoint set (k : string) (v : V) (d : dict V) : dict V :=
  match d with
  | [] => [(k, v)]
  | (k', v') :: d' =>
      if decide (k = k') then (k', v) :: d' else (k', v') :: set k v d'
  end.

(** The dictionary without key [k] (the same one when [k] is absent). *)
Fixpoint del (k : string) (d : dict V) : dict V :=
  match d with
  | [] => []
  | (k', v') :: d' =>
      if decide (k = k') then del k d' else (k', v') :: del k d'
  end.

(** [dict(pairs)]: the pairs are inserted from left to right. *)
Definition of_pairs (pairs : list (string * V)) : dict V :=
  fold_left (fun d kv => set kv.1 kv.2 d) pairs [].

End Dict.

End Py.

(** ** The field catalogue (bigml.fields.Fields), as dataset.py reads it *)

(** A field descriptor: the entries of [fields.fields[id]] that the module
    and [cast] look at. *)
Record descriptor : Type := {
  name : string;
  optype : string;
}.

Record Fields : Type := {
  fields : gmap string descriptor;            (* id -> descriptor *)
  fields_by_name : gmap string string;        (* display name -> id *)
  fields_by_column_number : gmap nat string;  (* column -> id *)
  fields_columns : list nat;                  (* the columns, in order *)
}.

(** [sorted_headers(fields)]: the names and the ids of the fields, in the
    order of [fields.fields_columns]. A missing subscript is a KeyError. *)
Fixpoint sorted_headers_loop (flds : Fields) (columns : list nat)
    (header_names header_ids : list string)
  : result (list string * list string) :=
  match columns with
  | [] => OK (header_names, header_ids)
  | column :: columns' =>
      id ← fields_by_column_number flds !! column ?! KeyError;
      d ← fields flds !! id ?! KeyError;
      sorted_headers_loop flds columns'
        (header_names ++ [name d]) (header_ids ++ [id])
  end.

Definition sorted_headers (flds : Fields)
  : result (list string * list string) :=
  sorted_headers_loop flds (fields_columns flds) [] [].

(** ** The descriptive payload of a dataset resource *)

Section Dataset.

(** The opaque generator expressions (s-expressions) of Flatline. *)
Variable sexp : Type.

(** One entry of the payload's "output_fields"; [None] is what
    [output_field.get(...)] gives for an absent (or null) entry. *)
Record output_field : Type := {
  of_generator : option sexp;
  of_names : option (list string);
}.

(** The entries of the dataset dictionary that [__init__] reads.
    [None] stands for an absent key. *)
Record dataset_info : Type := {
  p_fields : option (gmap string descriptor); (* present and a dict *)
  p_status : option (option Z);               (* read by get_status *)
  p_description : option string;
  p_locale : option string;
  p_rows : option Z;
  p_output_fields : option (list output_field);
  p_origin_dataset : option string;
}.

(** A resource as the API returns it: its own entries, and the
    dictionary under "object" when there is one. *)
Record payload : Type := {
  toplevel : dataset_info;
  object : option dataset_info;
}.

(** [if 'object' in dataset and isinstance(dataset['object'], dict):
    dataset = dataset['object']] *)
Definition dataset_of (p : payload) : dataset_info :=
  match object p with
  | Some o => o
  | None => toplevel p
  end.

(** The dictionaries [{"field": sexp, "names": names}] that
    [get_new_fields] builds and [_transform] reads. *)
Record new_field : Type := {
  field : option sexp;
  names : option (list string);
}.

(** [get_new_fields(output_fields)] *)
Definition get_new_fields (output_fields : list output_field)
  : list new_field :=
  map (fun output_field =>
         {| field := of_generator output_field;
            names := of_names output_field |}) output_fields.

(** ** Collaborators *)

(** What [Dataset(...)] accepts: a resource id or a fetched payload. *)
Variable resource : Type.
(** [bigml.basemodel.get_resource_dict(dataset, "dataset", ...)] *)
Variable get_resource_dict : resource -> result (option string * payload).
(** [bigml.api.get_status(dataset)]: the status dictionary, reduced to
    its "code" entry ([None] when [status] has no "code"). *)
Variable get_status : dataset_info -> result (option Z).
(** [bigml.constants.FINISHED] and [bigml.util.DEFAULT_LOCALE] *)
Variable FINISHED : Z.
Variable DEFAULT_LOCALE : string.
(** [bigml.fields.Fields(dataset)] *)
Variable Fields_new : dataset_info -> result Fields.
(** The casting rule of [bigml.util.cast] for one value of one field. *)
Variable cast_value : descriptor -> value -> result value.
(** [Flatline.interpreter.evaluate_sexp(expr, fields, True).valueOf()],
    reduced to its "error" entry ([None] when there is none), and
    [Flatline.interpreter.eval_and_apply_sexp(expr, fields, rows)].
    Both stand for calls that come back with a value: an exception thrown
    inside the interpreter is not modelled, and what is proved of
    [_transform] and [transform] holds of the runs in which these calls
    return. *)
Variable evaluate_sexp :
  option sexp -> gmap string descriptor -> option string.
Variable eval_and_apply_sexp :
  option sexp -> gmap string descriptor -> list (list value) ->
  list (list value).
(** The API connection: [api.get_dataset], [api.create_sample],
    [api.ok] and the rows [api.get_sample(...)] answers with
    ([.get("object", {}).get("sample", {}).get("rows")]). *)
Variable sample : Type.
Variable api_get_dataset : string -> resource.
Variable api_create_sample : option string -> sample.
Variable api_ok : sample -> bool.
Variable api_get_sample : sample -> Z -> option (list (list value)).

(** Modelled from the spec: [bigml.util.cast] is imported by dataset.py
    but defined in another module. It normalises the record in place:
    every value whose key is a field of the catalogue is replaced by the
    value the field's casting rule gives, and a failing rule aborts the
    call; the keys and their order are untouched. *)
Fixpoint cast (input_data : Py.dict value) (flds : gmap string descriptor)
  : result (Py.dict value) :=
  match input_data with
  | [] => OK []
  | (key, v) :: rest =>
      v' ← match flds !! key with
           | Some d => cast_value d v
           | None => OK v
           end;
      rest' ← cast rest flds;
      OK ((key, v') :: rest')
  end.

(** ** The Dataset class *)

(** The attributes of an instance. [None] is Python's [None]; for the
    three header attributes, which [__init__] does not initialise, it
    stands for an attribute that was never set. *)
Inductive Dataset : Type := mkDataset {
  resource_id : option string;
  rows : option Z;
  origin_dataset : option Dataset;
  in_fields : option Fields;
  out_fields : option Fields;
  description : option string;
  locale : option string;
  transformations : option (list new_field);
  out_header_names : option (list string);
  in_header_names : option (list string);
  in_header_ids : option (list string);
}.

(** [add_transformations(self, origin_dataset, new_fields)];
    [construct] is the class constructor [Dataset(...)]. *)
Definition add_transformations (construct : resource -> result Dataset)
    (self : Dataset) (origin : string) (new_fields : list new_field)
  : result Dataset :=
  let origin_payload := api_get_dataset origin in
  origin_node ← construct origin_payload;
  OK {| resource_id := resource_id self;
        rows := rows self;
        origin_dataset := Some origin_node;
        in_fields := out_fields origin_node;
        out_fields := out_fields self;
        description := description self;
        locale := locale self;
        transformations :=
          match new_fields with
          | [] => transformations self
          | _ :: _ => Some new_fields
          end;
        out_header_names := out_header_names self;
        in_header_names := in_header_names self;
        in_header_ids := in_header_ids self |}.

(** Python truth value of [dataset.get("origin_dataset")]. *)
Definition truthy (s : option string) : bool :=
  match s with
  | None => false
  | Some s => negb (String.eqb s "")
  end.

(** [Dataset.__init__(self, dataset)] without a cache. The constructor
    calls itself on the origin dataset; [depth] is the number of nested
    calls Python allows before it raises RecursionError. *)
Fixpoint Dataset_init (depth : nat) (dataset : resource) : result Dataset :=
  match depth with
  | O => Raise RecursionError
  | S depth' =>
      '(rid, dataset) ← get_resource_dict dataset;
      let self :=
        {| resource_id := rid; rows := None; origin_dataset := None;
           in_fields := None; out_fields := None; description := None;
           locale := None; transformations := None;
           out_header_names := None; in_header_names := None;
           in_header_ids := None |} in
      let dataset := dataset_of dataset in
      match p_fields dataset with
      | None => OK self
      | Some _ =>
          status ← get_status dataset;
          if bool_decide (status = Some FINISHED) then
            out ← Fields_new dataset;
            '(out_names, _) ← sorted_headers out;
            descr ← p_description dataset ?! KeyError;
            let new_fields :=
              get_new_fields (default [] (p_output_fields dataset)) in
            let self :=
              {| resource_id := rid;
                 rows := Some (default 0%Z (p_rows dataset));
                 origin_dataset := None;
                 in_fields := None;
                 out_fields := Some out;
                 description := Some descr;
                 locale := Some (default DEFAULT_LOCALE (p_locale dataset));
                 transformations := None;
                 out_header_names := Some out_names;
                 in_header_names := None;
                 in_header_ids := None |} in
            if truthy (p_origin_dataset dataset) then
              self ← add_transformations (Dataset_init depth') self
                       (default "" (p_origin_dataset dataset)) new_fields;
              inf ← in_fields self ?! AttributeError;
              '(in_names, in_ids) ← sorted_headers inf;
              OK {| resource_id := resource_id self;
                    rows := rows self;
                    origin_dataset := origin_dataset self;
                    in_fields := in_fields self;
                    out_fields := out_fields self;
                    description := description self;
                    locale := locale self;
                    transformations := transformations self;
                    out_header_names := out_header_names self;
                    in_header_names := Some in_names;
                    in_header_ids := Some in_ids |}
            else OK self
          else OK self
      end
  end.

(** [get_sample(self, rows_number)] *)
Definition get_sample (self : Dataset) (rows_number : Z)
  : option (list (list value)) :=
  let s := api_create_sample (resource_id self) in
  if api_ok s then api_get_sample s rows_number else Some [].

(** [get_inputs_sample(self, rows_number)] *)
Definition get_inputs_sample (self : Dataset) (rows_number : Z)
  : result (option (list (list value))) :=
  match origin_dataset self with
  | None => Raise NoOrigin
  | Some origin => OK (get_sample origin rows_number)
  end.

(** [_input_array(self, input_data)]: the first loop, which resolves
    every key of the record (an id stays, a display name becomes the id,
    anything else is kept as it is) into [new_input_data]. The local
    [headers] is read from the instance but never used. *)
Fixpoint resolve_keys (self : Dataset) (items : list (string * value))
    (new_input_data : Py.dict value) : result (Py.dict value) :=
  match items with
  | [] => OK new_input_data
  | (key, v) :: items' =>
      _ ← in_header_ids self ?! AttributeError;
      inf ← in_fields self ?! AttributeError;
      key' ← match fields inf !! key with
             | Some _ => OK key
             | None =>
                 _ ← in_header_names self ?! AttributeError;
                 OK (default key (fields_by_name inf !! key))
             end;
      resolve_keys self items' (Py.set key' v new_input_data)
  end.

Definition _input_array (self : Dataset) (input_data : Py.dict value)
  : result (list value) :=
  new_input_data ← resolve_keys self input_data [];
  inf ← in_fields self ?! AttributeError;
  new_input_data ← cast new_input_data (fields inf);
  ids ← in_header_ids self ?! AttributeError;
  OK (map (fun id => default VNone (Py.get id new_input_data)) ids).

(** The body of [for index, _ in enumerate(new_input)]: the row group
    [index] is created when it does not exist yet, receives the result
    columns, and the generator's names are appended to the headers. *)
Fixpoint extend_groups (index : nat) (new_input : list (list value))
    (gen_names : option (list string))
    (new_input_arrays : list (list value)) (out_headers : list string)
  : result (list (list value) * list string) :=
  match new_input with
  | [] => OK (new_input_arrays, out_headers)
  | columns :: new_input' =>
      let new_input_arrays :=
        match new_input_arrays !! index with
        | Some _ => new_input_arrays
        | None => new_input_arrays ++ [[]]
        end in
      group ← new_input_arrays !! index ?! IndexError;
      let new_input_arrays :=
        <[index := group ++ columns]> new_input_arrays in
      ns ← gen_names ?! TypeError;
      extend_groups (S index) new_input' gen_names
        new_input_arrays (out_headers ++ ns)
  end.

(** The body of [for transformation in self.transformations]. *)
Fixpoint apply_transformations (flds : gmap string descriptor)
    (input_arrays : list (list value)) (gens : list new_field)
    (new_input_arrays : list (list value)) (out_headers : list string)
  : result (list (list value) * list string) :=
  match gens with
  | [] => OK (new_input_arrays, out_headers)
  | transformation :: gens' =>
      let expr := field transformation in
      let gen_names := names transformation in
      match evaluate_sexp expr flds with
      | Some msg => Raise (ExpressionError msg)
      | None =>
          let new_input := eval_and_apply_sexp expr flds input_arrays in
          '(new_input_arrays, out_headers) ←
            extend_groups 0 new_input gen_names
              new_input_arrays out_headers;
          apply_transformations flds input_arrays gens'
            new_input_arrays out_headers
      end
  end.

(** The last loop of [_transform], which copies the row groups. *)
Fixpoint copy_groups (index : nat) (new_input_arrays : list (list value))
    (out_arrays : list (list value)) : result (list (list value)) :=
  match new_input_arrays with
  | [] => OK out_arrays
  | input_array :: rest =>
      let out_arrays :=
        match out_arrays !! index with
        | Some _ => out_arrays
        | None => out_arrays ++ [[]]
        end in
      group ← out_arrays !! index ?! IndexError;
      copy_groups (S index) rest (<[index := group ++ input_array]> out_arrays)
  end.

(** [_transform(self, input_arrays)] *)
Definition _transform (self : Dataset) (input_arrays : list (list value))
  : result (list string * list (list value)) :=
  inf ← in_fields self ?! AttributeError;
  gens ← transformations self ?! TypeError;
  '(new_input_arrays, out_headers) ←
    apply_transformations (fields inf) input_arrays gens [] [];
  out_arrays ← copy_groups 0 new_input_arrays [];
  OK (out_headers, out_arrays).

(** [dict(zip(out_headers, row))] *)
Definition assemble (out_headers : list string) (row : list value)
  : Py.dict value :=
  Py.of_pairs (zip out_headers row).

(** [transform(self, input_data_list)] *)
Definition transform (self : Dataset) (input_data_list : list (Py.dict value))
  : result (list (Py.dict value)) :=
  rows ← mapM (_input_array self) input_data_list;
  '(out_headers, out_arrays) ← _transform self rows;
  OK (map (assemble out_headers) out_arrays).

End Dataset.

Arguments mkDataset {sexp}.
Arguments resource_id {sexp}.
Arguments rows {sexp}.
Arguments origin_dataset {sexp}.
Arguments in_fields {sexp}.
Arguments out_fields {sexp}.
Arguments description {sexp}.
Arguments locale {sexp}.
Arguments transformations {sexp}.
Arguments out_header_names {sexp}.
Arguments in_header_names {sexp}.
Arguments in_header_ids {sexp}.
Arguments field {sexp}.
Arguments names {sexp}.
Arguments get_new_fields {sexp}.
Arguments dataset_of {sexp}.
Arguments p_fields {sexp}.
Arguments p_origin_dataset {sexp}.
Arguments p_output_fields {sexp}.
Arguments p_description {sexp}.
Arguments p_status {sexp}.
Arguments p_locale {sexp}.
Arguments p_rows {sexp}.
Arguments Dataset_init {sexp resource}.
Arguments add_transformations {sexp resource}.
Arguments get_sample {sexp sample}.
Arguments get_inputs_sample {sexp sample}.
Arguments resolve_keys {sexp}.
Arguments _input_array {sexp}.
Arguments apply_transformations {sexp}.
Arguments _transform {sexp}.
Arguments transform {sexp}.

(** ** A concrete instance: the scenario of the design document

    Schema [{0: "a", 1: "b"}] with numeric fields, and a toy interpreter
    that knows three expressions. Used to run the definitions. *)
Module Scenario.

Inductive sexp : Type :=
  | Sum_a_b        (* (+ (field a) (field b)) *)
  | Field_a        (* (field a) *)
  | Malformed.     (* an expression the dry-run check rejects *)

Definition numeric (n : string) : descriptor :=
  {| name := n; optype := "numeric" |}.

Definition schema : Fields :=
  {| fields := {[ "000000" := numeric "a"; "000001" := numeric "b" ]};
     fields_by_name := {[ "a" := "000000"; "b" := "000001" ]};
     fields_by_column_number := {[ 0 := "000000"; 1 := "000001" ]};
     fields_columns := [0; 1] |}.

(** A caster for numeric fields: numbers and nulls pass, anything else
    is a mismatch. *)
Definition cast_value (d : descriptor) (v : value) : result value :=
  if String.eqb (optype d) "numeric" then
    match v with
    | VInt _ | VNone => OK v
    | _ => Raise (CastError "Mismatch input data type")
    end
  else OK v.

Definition evaluate_sexp (e : option sexp) (_ : gmap string descriptor)
  : option string :=
  match e with
  | Some Malformed | None => Some "unknown operator"
  | Some _ => None
  end.

Definition cell_add (x y : value) : value :=
  match x, y with
  | VInt a, VInt b => VInt (a + b)
  | _, _ => VNone
  end.

(** One result row per input row. *)
Definition eval_and_apply_sexp (e : option sexp)
    (_ : gmap string descriptor) (input_arrays : list (list value))
  : list (list value) :=
  match e with
  | Some Sum_a_b =>
      map (fun r => [cell_add (default VNone (r !! 0))
                              (default VNone (r !! 1))]) input_arrays
  | Some Field_a => map (fun r => [default VNone (r !! 0)]) input_arrays
  | _ => []
  end.

Definition node (gens : option (list (new_field sexp))) : Dataset sexp :=
  {| resource_id := Some "dataset/2";
     rows := Some 1%Z;
     origin_dataset := None;
     in_fields := Some schema;
     out_fields := Some schema;
     description := Some "";
     locale := Some "en_US";
     transformations := gens;
     out_header_names := Some ["a"; "b"];
     in_header_names := Some ["a"; "b"];
     in_header_ids := Some ["000000"; "000001"] |}.

Definition sum : new_field sexp :=
  {| field := Some Sum_a_b; names := Some ["sum"] |}.

Definition run_transform :=
  transform cast_value evaluate_sexp eval_and_apply_sexp.
Definition run_transform_rows :=
  _transform evaluate_sexp eval_and_apply_sexp.
Definition build_row := @_input_array sexp cast_value.

(** A small account: a raw dataset, two datasets derived from it (one
    with a new field, one without) and a dataset still being built. *)
Definition FINISHED : Z := 5.

Definition info (code : Z) (origin : option string)
    (outs : option (list (output_field sexp))) : dataset_info sexp :=
  {| p_fields := Some (fields schema);
     p_status := Some (Some code);
     p_description := Some "";
     p_locale := None;
     p_rows := Some 1%Z;
     p_output_fields := outs;
     p_origin_dataset := origin |}.

Definition wrapped (d : dataset_info sexp) : payload sexp :=
  {| toplevel := {| p_fields := None; p_status := None;
                    p_description := None; p_locale := None;
                    p_rows := None; p_output_fields := None;
                    p_origin_dataset := None |};
     object := Some d |}.

Definition account : gmap string (payload sexp) :=
  {[ "dataset/1" := wrapped (info 5 None None);
     "dataset/2" := wrapped (info 5 (Some "dataset/1")
                      (Some [{| of_generator := Some Sum_a_b;
                                of_names := Some ["sum"] |}]));
     "dataset/3" := wrapped (info 5 (Some "dataset/1") (Some []));
     "dataset/4" := wrapped (info 1 None None) ]}.

Definition get_resource_dict (id : string)
  : result (option string * payload sexp) :=
  p ← account !! id ?! KeyError;
  OK (Some id, p).

Definition get_status (d : dataset_info sexp) : result (option Z) :=
  OK (default (Some FINISHED) (p_status d)).

Definition Fields_new (_ : dataset_info sexp) : result Fields := OK schema.

Definition construct : nat → string → result (Dataset sexp) :=
  Dataset_init get_resource_dict get_status FINISHED "en_US" Fields_new
    (fun id => id).

(** The node the constructor builds for "dataset/3". *)
Definition without_new_fields : Dataset sexp :=
  Eval vm_compute in
    match construct 2 "dataset/3" with
    | OK n => n
    | Raise _ => node None
    end.

Definition inputs_sample :=
  @get_inputs_sample sexp unit (fun _ => tt) (fun _ => true)
    (fun _ _ => Some [[VInt 2; VInt 3]]).

End Scenario.


(** ** Further cases of the scenario *)
Module Cases.
Import Scenario.

(** The account, with a dataset derived from the one still being built
    and a finished dataset whose payload has no description. *)
Definition account : gmap string (payload sexp) :=
  <[ "dataset/5" := wrapped (info 5 (Some "dataset/4")
                       (Some [{| of_generator := Some Sum_a_b;
                                 of_names := Some ["sum"] |}])) ]>
  (<[ "dataset/6" :=
        wrapped {| p_fields := Some (fields schema);
                   p_status := Some (Some 5%Z);
                   p_description := None;
                   p_locale := None;
                   p_rows := None;
                   p_output_fields := None;
                   p_origin_dataset := None |} ]> Scenario.account).

Definition get_resource_dict (id : string)
  : result (option string * payload sexp) :=
  p ← account !! id ?! KeyError;
  OK (Some id, p).

Definition construct : nat → string → result (Dataset sexp) :=
  Dataset_init get_resource_dict get_status FINISHED "en_US" Fields_new
    (fun id => id).

(** The nodes the constructor builds for "dataset/1" (raw), "dataset/2"
    (derived, one new field) and "dataset/4" (not finished). *)
Definition raw : Dataset sexp :=
  Eval vm_compute in
    match construct 1 "dataset/1" with
    | OK n => n
    | Raise _ => node None
    end.

Definition derived : Dataset sexp :=
  Eval vm_compute in
    match construct 2 "dataset/2" with
    | OK n => n
    | Raise _ => node None
    end.

Definition unfinished : Dataset sexp :=
  Eval vm_compute in
    match construct 1 "dataset/4" with
    | OK n => n
    | Raise _ => node None
    end.

(** Two more generators: a copy of field a, and one without names. *)
Definition copy_a : new_field sexp :=
  {| field := Some Field_a; names := Some ["a2"] |}.

Definition unnamed : new_field sexp :=
  {| field := Some Field_a; names := None |}.

Definition two_rows : list (list value) :=
  [[VInt 2; VInt 3]; [VInt 3; VInt 4]].

End Cases.

(** ** Auxiliary definitions for the statements *)

(** The key under which [_input_array] stores the value of [key]. *)
Definition resolve_key (inf : Fields) (key : string) : string :=
  match fields inf !! key with
  | Some _ => key
  | None => default key (fields_by_name inf !! key)
  end.

(** The resolved record: [new_input_data] after the first loop. *)
Definition resolved (inf : Fields) (items : list (string * value))
    (new_input_data : Py.dict value) : Py.dict value :=
  fold_left (fun d kv => Py.set (resolve_key inf kv.1) kv.2 d)
    items new_input_data.

(** The row read off a record along the header ids. *)
Definition row_of (ids : list string) (d : Py.dict value) : list value :=
  map (fun id => default VNone (Py.get id d)) ids.

(** The record key [key] is for the field [id]: it is the id itself, or
    it is no field id and is the display name of the field. *)
Definition refers_to (inf : Fields) (key id : string) : Prop :=
  key = id
  ∨ (fields inf !! key = None ∧ fields_by_name inf !! key = Some id).

(** The record supplies [v] for the field [id]: [v] is the value of its
    last entry for that field. *)
Definition supplies (inf : Fields) (record : list (string * value))
    (id : string) (v : value) : Prop :=
  ∃ j key,
    record !! j = Some (key, v)
    ∧ refers_to inf key id
    ∧ ∀ j' key' v', j < j' → record !! j' = Some (key', v') →
                    ¬ refers_to inf key' id.

(** Position [i] of [row] belongs to the field of column [column]: it
    holds what the field's casting rule gives for the value the record
    supplies for the field, and null when no entry of the record is for
    the field. *)
Definition holds_field (cast_value : descriptor → value → result value)
    (inf : Fields) (record : list (string * value)) (row : list value)
    (i column : nat) : Prop :=
  ∃ id desc cell,
    fields_by_column_number inf !! column = Some id
    ∧ fields inf !! id = Some desc
    ∧ row !! i = Some cell
    ∧ ((∃ v, supplies inf record id v ∧ cast_value desc v = OK cell)
       ∨ ((∀ key v, (key, v) ∈ record → ¬ refers_to inf key id)
          ∧ cell = VNone)).

(** A generator that passes the check and emits exactly one result row,
    with one column per name. *)
Definition one_row {sexp : Type}
    (evaluate_sexp : option sexp → gmap string descriptor → option string)
    (eval_and_apply_sexp :
       option sexp → gmap string descriptor → list (list value) →
       list (list value))
    (flds : gmap string descriptor) (input_arrays : list (list value))
    (g : new_field sexp) : Prop :=
  evaluate_sexp (field g) flds = None
  ∧ ∃ ns columns,
      names g = Some ns
      ∧ eval_and_apply_sexp (field g) flds input_arrays = [columns]
      ∧ length columns = length ns.

(** What one generator does to the row groups: group [k] receives the
    result row [k]; result rows beyond the last group open new groups. *)
Fixpoint merge_groups (groups new_input : list (list value))
  : list (list value) :=
  match groups, new_input with
  | group :: groups', columns :: new_input' =>
      (group ++ columns) :: merge_groups groups' new_input'
  | [], _ => new_input
  | _, [] => groups
  end.

(** The result rows with index [k], one generator after the other. *)
Definition row_group (k : nat) (results : list (list (list value)))
  : list value :=
  concat (omap (fun new_input => new_input !! k) results).

(** The names of a generator, once per result row. *)
Definition repeated_names {sexp : Type} (g : new_field sexp)
    (new_input : list (list value)) : list string :=
  concat (replicate (length new_input) (default [] (names g))).

(** A generator the engine gets through: its check reports no error, and
    it has names unless it emits no row. *)
Definition applies {sexp : Type}
    (evaluate_sexp : option sexp → gmap string descriptor → option string)
    (eval_and_apply_sexp :
       option sexp → gmap string descriptor → list (list value) →
       list (list value))
    (flds : gmap string descriptor) (input_arrays : list (list value))
    (g : new_field sexp) : Prop :=
  evaluate_sexp (field g) flds = None
  ∧ (names g = None → eval_and_apply_sexp (field g) flds input_arrays = []).

(** A column of the catalogue that [sorted_headers] can name. *)
Definition column_known (flds : Fields) (column : nat) : Prop :=
  ∃ id, fields_by_column_number flds !! column = Some id
        ∧ is_Some (fields flds !! id).

(** ** Facts about dictionaries *)

Section DictFacts.
Context {V : Type}.
Implicit Types (d : Py.dict V) (k : string) (v : V).

Lemma get_set_eq k v d : Py.get k (Py.set k v d) = Some v.
Proof.
  induction d as [|[k' v'] d IH]; simpl.
  - by rewrite decide_True.
  - destruct (decide (k = k')) as [->|Hne]; simpl.
    + by rewrite decide_True.
    + by rewrite decide_False.
Qed.

Lemma get_set_ne k k' v d :
  k ≠ k' → Py.get k' (Py.set k v d) = Py.get k' d.
Proof.
  intros Hne. induction d as [|[k0 v0] d IH]; simpl.
  - by rewrite decide_False.
  - destruct (decide (k = k0)) as [->|Hk]; simpl.
    + by rewrite !decide_False.
    + destruct (decide (k' = k0)); [done | apply IH].
Qed.

Lemma length_set k v d : length (Py.set k v d) ≤ S (length d).
Proof.
  induction d as [|[k' v'] d IH]; simpl; [lia|].
  destruct (decide (k = k')); simpl; lia.
Qed.

(** Inserting pairs none of which has key [k] leaves [k] alone. *)
Lemma get_insert_pairs_other k (pairs : list (string * V)) d :
  Forall (fun kv => kv.1 ≠ k) pairs →
  Py.get k (fold_left (fun d kv => Py.set kv.1 kv.2 d) pairs d)
  = Py.get k d.
Proof.
  intros H. revert d. induction H as [|[k' v'] pairs Hk _ IH]; intros d.
  - done.
  - simpl. rewrite IH. by apply get_set_ne.
Qed.

(** The last pair with key [k] decides the entry of [k]. *)
Lemma get_insert_pairs_last k v (pairs : list (string * V)) i d :
  pairs !! i = Some (k, v) →
  (∀ j v', i < j → pairs !! j ≠ Some (k, v')) →
  Py.get k (fold_left (fun d kv => Py.set kv.1 kv.2 d) pairs d) = Some v.
Proof.
  revert i d. induction pairs as [|[k0 v0] pairs IH]; intros i d Hi Hlast.
  - done.
  - destruct i as [|i]; simpl in *.
    + injection Hi as -> ->.
      rewrite get_insert_pairs_other; [apply get_set_eq|].
      apply Forall_lookup_2. intros j [k1 v1] Hj. simpl. intros ->.
      by apply (Hlast (S j) v1); [lia|].
    + apply (IH i); [done|].
      intros j v' Hj. apply (Hlast (S j) v'). lia.
Qed.

(** Every entry of the dictionary was inserted, or was there before. *)
Lemma get_insert_pairs_inv k v (pairs : list (string * V)) d :
  Py.get k (fold_left (fun d kv => Py.set kv.1 kv.2 d) pairs d) = Some v →
  (∃ i, pairs !! i = Some (k, v)) ∨ Py.get k d = Some v.
Proof.
  revert d. induction pairs as [|[k0 v0] pairs IH]; intros d H; simpl in *.
  - by right.
  - destruct (IH _ H) as [[i Hi]|Hd].
    + left. by exists (S i).
    + destruct (decide (k0 = k)) as [->|Hne].
      * rewrite get_set_eq in Hd. injection Hd as ->. left. by exists 0.
      * rewrite get_set_ne in Hd by done. by right.
Qed.

Lemma length_insert_pairs (pairs : list (string * V)) d :
  length (fold_left (fun d kv => Py.set kv.1 kv.2 d) pairs d)
  ≤ length d + length pairs.
Proof.
  revert d. induction pairs as [|[k v] pairs IH]; intros d; simpl; [lia|].
  specialize (IH (Py.set k v d)). pose proof (length_set k v d). lia.
Qed.

End DictFacts.

(** ** The output assembler *)

Section Assembler.
Implicit Types (headers : list string) (row : list value).

(** C8. The assembler pairs headers and values by position, and when a
    name occurs several times among the paired headers the value at its
    last occurrence is the one the record holds: if [headers !! i] is
    [h], the row has a value [v] at [i], and no later paired position
    carries [h] again, the record maps [h] to [v]. *)
Theorem assemble_last_write_wins headers row i h v :
  headers !! i = Some h →
  row !! i = Some v →
  (∀ j, i < j → j < length row → headers !! j ≠ Some h) →
  Py.get h (assemble headers row) = Some v.
Proof.
  intros Hh Hv Hlast. unfold assemble, Py.of_pairs.
  apply (get_insert_pairs_last h v _ i).
  - rewrite lookup_zip_with, Hh. simpl. by rewrite Hv.
  - intros j v' Hij Hj.
    apply lookup_zip_with_Some in Hj as (h' & w & [= -> ->] & Hh' & Hw).
    apply (Hlast j); [done | by eapply lookup_lt_Some | done].
Qed.

(** C10. The record has at most [min (len headers) (len row)] entries;
    the headers and the values beyond the shorter of the two sequences
    play no part, and every entry comes from a paired position (nothing
    is padded). The assembler is a total function: it cannot raise. *)
Theorem assemble_stops_at_shorter headers row :
  length (assemble headers row) ≤ length headers `min` length row
  ∧ assemble headers row
    = assemble (take (length row) headers) (take (length headers) row)
  ∧ ∀ h v, Py.get h (assemble headers row) = Some v →
      ∃ i, i < length headers `min` length row
           ∧ headers !! i = Some h ∧ row !! i = Some v.
Proof.
  unfold assemble, Py.of_pairs. split; [|split].
  - etrans; [apply length_insert_pairs|].
    simpl. by rewrite length_zip_with.
  - f_equal. revert row. induction headers as [|h headers IH];
      intros [|v row]; simpl; [done..|].
    f_equal. apply IH.
  - intros h v H. apply get_insert_pairs_inv in H as [[i Hi]|H]; [|done].
    apply lookup_zip_with_Some in Hi as (h' & w & [= -> ->] & Hh & Hw).
    exists i. split; [|done].
    apply lookup_lt_Some in Hh. apply lookup_lt_Some in Hw. lia.
Qed.

End Assembler.

(** ** The transformation engine *)

Section Engine.
Context {sexp : Type}.
Variable cast_value : descriptor → value → result value.
Variable evaluate_sexp : option sexp → gmap string descriptor → option string.
Variable eval_and_apply_sexp :
  option sexp → gmap string descriptor → list (list value) →
  list (list value).

Local Abbreviation build := (_input_array cast_value).
Local Abbreviation engine := (apply_transformations evaluate_sexp eval_and_apply_sexp).
Local Abbreviation transform_rows := (_transform evaluate_sexp eval_and_apply_sexp).
Local Abbreviation run := (transform cast_value evaluate_sexp eval_and_apply_sexp).

Implicit Types (self : Dataset sexp) (gens : list (new_field sexp)).

(** The last loop of [_transform] copies the row groups unchanged. *)
Lemma copy_groups_app (groups out_arrays : list (list value)) :
  copy_groups (length out_arrays) groups out_arrays
  = OK (out_arrays ++ groups).
Proof.
  revert out_arrays. induction groups as [|g groups IH]; intros out; simpl.
  - by rewrite app_nil_r.
  - rewrite lookup_ge_None_2 by lia.
    rewrite list_lookup_middle by done. simpl.
    rewrite insert_app_r_alt by lia. rewrite Nat.sub_diag. simpl.
    replace (S (length out)) with (length (out ++ [g]))
      by (rewrite length_app; simpl; lia).
    rewrite IH. by rewrite <- app_assoc.
Qed.

Lemma copy_groups_id (groups : list (list value)) :
  copy_groups 0 groups [] = OK groups.
Proof. apply (copy_groups_app groups []). Qed.

Lemma mapM_build_succeeds self (records : list (Py.dict value)) :
  Forall (fun r => succeeds (build self r) = true) records →
  ∃ input_arrays, mapM (build self) records = OK input_arrays.
Proof.
  induction 1 as [|r records Hr _ [arrs IH]]; simpl.
  - by eexists.
  - destruct (build self r) as [row|]; [|done]. simpl.
    rewrite IH. by eexists.
Qed.

(** The engine run over [pre ++ post] is the run over [pre] followed by
    the run over [post]. *)
Lemma engine_app flds input_arrays pre post groups headers :
  engine flds input_arrays (pre ++ post) groups headers
  = '(groups', headers') ← engine flds input_arrays pre groups headers;
    engine flds input_arrays post groups' headers'.
Proof.
  revert groups headers.
  induction pre as [|g pre IH]; intros groups headers; simpl; [done|].
  destruct (evaluate_sexp _ _); [done|].
  destruct (extend_groups _ _ _ _ _) as [[groups' headers']|]; [|done].
  simpl. apply IH.
Qed.

(** A generator whose check fails aborts the run, whatever came before. *)
Lemma engine_check_failure flds input_arrays gens groups headers :
  Exists (fun g => is_Some (evaluate_sexp (field g) flds)) gens →
  ∃ e, engine flds input_arrays gens groups headers = Raise e.
Proof.
  intros H. revert groups headers.
  induction H as [g gens [msg Hg]|g gens _ IH]; intros groups headers; simpl.
  - rewrite Hg. by eexists.
  - destruct (evaluate_sexp _ _); [by eexists|].
    destruct (extend_groups _ _ _ _ _) as [[groups' headers']|];
      [apply IH | by eexists].
Qed.

(** C1, as amended. When the node's transformations are the empty list,
    its input schema is present and the row builder succeeds on every
    record, [_transform] returns no header and no row, whatever the rows
    are, and [transform] returns the empty list of records. *)
Theorem transform_no_generators self inf (records : list (Py.dict value)) :
  transformations self = Some [] →
  in_fields self = Some inf →
  Forall (fun r => succeeds (build self r) = true) records →
  (∀ input_arrays, transform_rows self input_arrays = OK ([], []))
  ∧ run self records = OK [].
Proof.
  intros Hgens Hin Hrows.
  assert (∀ arrs, transform_rows self arrs = OK ([], [])) as Hengine.
  { intros arrs. unfold _transform. by rewrite Hin, Hgens. }
  split; [done|].
  destruct (mapM_build_succeeds _ _ Hrows) as [arrs Harrs].
  unfold transform. rewrite Harrs. simpl. by rewrite Hengine.
Qed.

(** C3, as amended. When the check of some generator reports an error,
    [transform] raises and returns no record at all; and when the row
    builder succeeds on every record and the generators before the
    failing one are applied without error, what it raises is the
    expression error of that generator. *)
Theorem transform_check_failure self inf gens (records : list (Py.dict value)) :
  in_fields self = Some inf →
  transformations self = Some gens →
  Exists (fun g => is_Some (evaluate_sexp (field g) (fields inf))) gens →
  (∃ e, run self records = Raise e)
  ∧ ∀ input_arrays pre g post msg st,
      mapM (build self) records = OK input_arrays →
      gens = pre ++ g :: post →
      engine (fields inf) input_arrays pre [] [] = OK st →
      evaluate_sexp (field g) (fields inf) = Some msg →
      run self records = Raise (ExpressionError msg).
Proof.
  intros Hin Hgens Hbad. split.
  - unfold transform.
    destruct (mapM _ records) as [arrs|e]; [|by eexists]. simpl.
    unfold _transform. rewrite Hin, Hgens. simpl.
    destruct (engine_check_failure (fields inf) arrs gens [] [] Hbad)
      as [e ->].
    by eexists.
  - intros arrs pre g post msg [groups headers] Harrs -> Hpre Hg.
    unfold transform. rewrite Harrs. simpl.
    unfold _transform. rewrite Hin, Hgens. simpl.
    rewrite engine_app, Hpre. simpl. by rewrite Hg.
Qed.

End Engine.

(** ** The row builder *)

Section HeaderFacts.

(** What a successful [sorted_headers] run appends: one id per column,
    each the id of the column and a field of the catalogue. *)
Lemma sorted_headers_loop_ok flds columns nms ids nms' ids' :
  sorted_headers_loop flds columns nms ids = OK (nms', ids') →
  ∃ new_ids,
    ids' = ids ++ new_ids
    ∧ Forall2 (fun column id =>
                 fields_by_column_number flds !! column = Some id
                 ∧ is_Some (fields flds !! id)) columns new_ids.
Proof.
  revert nms ids. induction columns as [|c columns IH]; intros nms ids; simpl.
  - intros [= _ <-]. exists []. by rewrite app_nil_r.
  - destruct (fields_by_column_number flds !! c) as [id|] eqn:Hc; [|done].
    simpl. destruct (fields flds !! id) as [d|] eqn:Hid; [|done]. simpl.
    intros H. apply IH in H as (new_ids & -> & Hall).
    exists (id :: new_ids). split; [by rewrite <- app_assoc|].
    constructor; [|done]. split; [done | by eexists].
Qed.

Lemma sorted_headers_ok flds nms ids :
  sorted_headers flds = OK (nms, ids) →
  Forall2 (fun column id =>
             fields_by_column_number flds !! column = Some id
             ∧ is_Some (fields flds !! id)) (fields_columns flds) ids.
Proof.
  intros H. by apply sorted_headers_loop_ok in H as (new_ids & -> & H).
Qed.

End HeaderFacts.

Section RowBuilder.
Context {sexp : Type}.
Variable cast_value : descriptor → value → result value.

Local Abbreviation build := (_input_array cast_value).
Local Abbreviation casted := (cast cast_value).

Implicit Types (self : Dataset sexp) (inf : Fields).
Implicit Types (record : Py.dict value) (k id : string).

(** On a node that carries its input schema and both input headers the
    first loop cannot raise: it computes the resolved record. *)
Lemma resolve_keys_resolved self inf nms ids record acc :
  in_fields self = Some inf →
  in_header_names self = Some nms →
  in_header_ids self = Some ids →
  resolve_keys self record acc = OK (resolved inf record acc).
Proof.
  intros Hin Hnms Hids. revert acc.
  induction record as [|[key v] record IH]; intros acc; simpl; [done|].
  rewrite Hids, Hin. simpl. unfold resolved in *. simpl.
  unfold resolve_key at 2.
  destruct (fields inf !! key); simpl; [apply IH|].
  rewrite Hnms. simpl. apply IH.
Qed.

Lemma _input_array_unfold self inf nms ids record :
  in_fields self = Some inf →
  in_header_names self = Some nms →
  in_header_ids self = Some ids →
  build self record
  = d ← casted (resolved inf record []) (fields inf); OK (row_of ids d).
Proof.
  intros Hin Hnms Hids. unfold _input_array.
  rewrite (resolve_keys_resolved self inf nms ids) by done. simpl.
  rewrite Hin. simpl. destruct (casted _ _); [|done]. simpl.
  by rewrite Hids.
Qed.

(** [cast] keeps the keys, and replaces the value of a field by what the
    casting rule of the field gives. *)
Lemma cast_get (d d' : Py.dict value) flds k :
  casted d flds = OK d' →
  match Py.get k d with
  | None => Py.get k d' = None
  | Some v =>
      ∃ v', Py.get k d' = Some v'
            ∧ match flds !! k with
              | Some desc => cast_value desc v = OK v'
              | None => v' = v
              end
  end.
Proof.
  revert d'. induction d as [|[k0 v0] d IH]; intros d'; simpl.
  - by intros [= <-].
  - destruct (match flds !! k0 with
              | Some desc => cast_value desc v0
              | None => OK v0
              end) as [v0'|] eqn:Hv0; [|done]. simpl.
    destruct (casted d flds) as [rest|] eqn:Hrest; [|done]. simpl.
    intros [= <-]. simpl. destruct (decide (k = k0)) as [->|Hne].
    + exists v0'. split; [done|].
      destruct (flds !! k0); [done | by injection Hv0].
    + by apply IH.
Qed.

(** Which value the record supplies for a field: the one of its last
    entry whose key resolves to the field, if there is such an entry. *)
Lemma resolved_as_pairs inf record acc :
  resolved inf record acc
  = fold_left (fun d kv => Py.set kv.1 kv.2 d)
      ((fun kv => (resolve_key inf kv.1, kv.2)) <$> record) acc.
Proof.
  revert acc. induction record as [|[key v] record IH]; intros acc;
    [done | apply IH].
Qed.

Lemma resolved_supplied inf (record : list (string * value)) i key v id :
  record !! i = Some (key, v) →
  resolve_key inf key = id →
  (∀ j key' v', i < j → record !! j = Some (key', v') →
                resolve_key inf key' ≠ id) →
  Py.get id (resolved inf record []) = Some v.
Proof.
  intros Hi <- Hlast. rewrite resolved_as_pairs.
  apply (get_insert_pairs_last _ v _ i).
  - by rewrite list_lookup_fmap, Hi.
  - intros j v' Hij Hj. rewrite list_lookup_fmap in Hj.
    destruct (record !! j) as [[key' w]|] eqn:Hrec; [|done].
    simpl in Hj. injection Hj as Hkey _.
    by apply (Hlast j key' w).
Qed.

Lemma resolved_not_supplied inf record id :
  Forall (fun kv => resolve_key inf kv.1 ≠ id) record →
  Py.get id (resolved inf record []) = None.
Proof.
  intros H. rewrite resolved_as_pairs.
  rewrite get_insert_pairs_other; [done|].
  by apply Forall_fmap.
Qed.

(** For a field of the catalogue, the keys the first loop stores under
    its id are the keys that are for the field. *)
Lemma resolve_key_refers inf key id desc :
  fields inf !! id = Some desc →
  resolve_key inf key = id ↔ refers_to inf key id.
Proof.
  intros Hdesc. unfold resolve_key, refers_to.
  destruct (fields inf !! key) as [d0|] eqn:Hkey.
  - split; [by left|]. intros [?|[? _]]; done.
  - destruct (fields_by_name inf !! key) as [id'|] eqn:Hname; simpl.
    + split; [intros ->; by right|].
      intros [->|[_ [= ->]]]; [congruence | done].
    + split; [by left|]. intros [?|[_ ?]]; done.
Qed.

(** A record has a last entry stored under [id], or none at all. *)
Lemma last_entry_or_none inf (record : list (string * value)) id :
  (∃ j key v,
     record !! j = Some (key, v)
     ∧ resolve_key inf key = id
     ∧ ∀ j' key' v', j < j' → record !! j' = Some (key', v') →
                     resolve_key inf key' ≠ id)
  ∨ Forall (fun kv => resolve_key inf kv.1 ≠ id) record.
Proof.
  induction record as [|[key v] record IH]; [by right|].
  destruct IH as [(j & key' & v' & Hj & Hkey & Hlast)|Hnone].
  - left. exists (S j), key', v'. split; [done|]. split; [done|].
    intros [|j'] key0 v0 Hlt Hj'; [lia|]. apply (Hlast j' key0 v0); [lia|done].
  - destruct (decide (resolve_key inf key = id)) as [Hid|Hne].
    + left. exists 0, key, v. split; [done|]. split; [done|].
      intros [|j'] key0 v0 Hlt Hj'; [lia|]. simpl in Hj'.
      apply (proj1 (Forall_lookup _ _) Hnone j' (key0, v0) Hj').
    + right. by constructor.
Qed.

(** C4, as amended. On a node that carries the input schema [inf] and
    the headers [sorted_headers] computes from it, whenever [cast] raises
    no error on the resolved record the row builder returns a row with
    one position per column of the schema. Position [i] belongs to the
    field of the [i]-th declared column, which is column [i] itself when
    the columns are [0..n-1]: it holds what the casting rule of that
    field gives for the value of the last record entry for the field
    (under its id, or under its name), and null when the record has no
    entry for the field. *)
Theorem input_array_positions self inf nms ids record d :
  in_fields self = Some inf →
  sorted_headers inf = OK (nms, ids) →
  in_header_names self = Some nms →
  in_header_ids self = Some ids →
  casted (resolved inf record []) (fields inf) = OK d →
  ∃ row,
    build self record = OK row
    ∧ length row = length (fields_columns inf)
    ∧ (∀ i column, fields_columns inf !! i = Some column →
         holds_field cast_value inf record row i column)
    ∧ (fields_columns inf = seq 0 (length (fields_columns inf)) →
       ∀ i, i < length row →
         holds_field cast_value inf record row i i).
Proof.
  intros Hin Hhdr Hnms Hids Hcast.
  pose proof (sorted_headers_ok _ _ _ Hhdr) as Hcols.
  assert (length (row_of ids d) = length (fields_columns inf)) as Hlen.
  { unfold row_of. rewrite length_map. symmetry. by eapply Forall2_length. }
  assert (∀ i column, fields_columns inf !! i = Some column →
            holds_field cast_value inf record (row_of ids d) i column)
    as Hpos.
  { intros i column Hi.
    destruct (Forall2_lookup_l _ _ _ _ _ Hcols Hi)
      as (id & Hid & Hcol & [desc Hdesc]).
    exists id, desc, (default VNone (Py.get id d)).
    split; [done|]. split; [done|]. split.
    - unfold row_of. by rewrite list_lookup_fmap, Hid.
    - pose proof (cast_get _ _ _ id Hcast) as Hget.
      destruct (last_entry_or_none inf record id)
        as [(j & key & v & Hj & Hkey & Hlast)|Hnone].
      + rewrite (resolved_supplied inf record j key v id) in Hget by done.
        destruct Hget as (v' & -> & Hv'). rewrite Hdesc in Hv'.
        left. exists v. split; [|done]. exists j, key.
        split; [done|]. split; [by eapply resolve_key_refers|].
        intros j' key' v0 Hlt Hj' Hrefers.
        apply (Hlast j' key' v0 Hlt Hj').
        by eapply resolve_key_refers.
      + rewrite (resolved_not_supplied inf record id) in Hget by done.
        rewrite Hget. right. split; [|done].
        intros key v Hel Hrefers.
        apply (proj1 (Forall_forall _ _) Hnone (key, v) Hel). simpl.
        by eapply resolve_key_refers. }
  exists (row_of ids d). split; [|split; [done|split; [done|]]].
  - rewrite (_input_array_unfold self inf nms ids) by done.
    by rewrite Hcast.
  - intros Hseq i Hi. apply Hpos. rewrite Hseq.
    rewrite lookup_seq_lt by lia. done.
Qed.

(** *** Keys that resolve to nothing *)

Lemma del_set {V} k k' (v : V) (d : Py.dict V) :
  Py.del k (Py.set k' v d)
  = if decide (k = k') then Py.del k d else Py.set k' v (Py.del k d).
Proof.
  induction d as [|[k0 v0] d IH]; simpl.
  - by destruct (decide (k = k')).
  - destruct (decide (k' = k0)) as [->|Hk0]; simpl.
    + destruct (decide (k = k0)); [done|]. simpl. by rewrite decide_True.
    + rewrite IH. destruct (decide (k = k0)), (decide (k = k')); try done.
      simpl. by rewrite decide_False.
Qed.

Lemma get_del_ne {V} k k' (d : Py.dict V) :
  k' ≠ k → Py.get k' (Py.del k d) = Py.get k' d.
Proof.
  intros Hne. induction d as [|[k0 v0] d IH]; [done|]. simpl.
  destruct (decide (k = k0)) as [<-|Hk0].
  - by rewrite decide_False.
  - simpl. destruct (decide (k' = k0)); [done | apply IH].
Qed.

Lemma row_of_del ids k (d : Py.dict value) :
  k ∉ ids → row_of ids (Py.del k d) = row_of ids d.
Proof.
  intros Hk. unfold row_of. apply map_ext_in. intros id Hid.
  rewrite get_del_ne; [done|]. intros ->.
  by apply Hk, list_elem_of_In.
Qed.

(** [cast] skips a key that is no field of the catalogue. *)
Lemma cast_del k (d : Py.dict value) flds :
  flds !! k = None →
  casted (Py.del k d) flds = d' ← casted d flds; OK (Py.del k d').
Proof.
  intros Hk. induction d as [|[k0 v0] d IH]; [done|]. simpl.
  destruct (decide (k = k0)) as [<-|Hne].
  - rewrite IH, Hk. simpl. destruct (casted d flds); [|done]. simpl.
    by rewrite decide_True.
  - simpl. rewrite IH.
    destruct (match flds !! k0 with
              | Some desc => cast_value desc v0
              | None => OK v0
              end); [|done]. simpl.
    destruct (casted d flds); [|done]. simpl.
    by rewrite decide_False.
Qed.

(** Dropping an unresolvable key from the record changes the resolved
    record under that key only. *)
Lemma resolved_del inf record k acc1 acc2 :
  resolve_key inf k = k →
  Py.del k acc1 = Py.del k acc2 →
  Py.del k (resolved inf record acc1)
  = Py.del k (resolved inf (Py.del k record) acc2).
Proof.
  intros Hk. revert acc1 acc2.
  induction record as [|[key v] record IH]; intros acc1 acc2 Hacc;
    [done|].
  simpl. destruct (decide (k = key)) as [<-|Hne].
  - apply IH. unfold resolved. simpl. rewrite Hk, del_set.
    by rewrite decide_True.
  - unfold resolved in *. simpl. apply IH.
    rewrite !del_set. by rewrite Hacc.
Qed.

(** C6. On a node that carries the input schema and its headers, a
    record key that is neither a field id nor a field name changes
    nothing: the row builder gives for the record exactly what it gives
    for the record without that key, the same row when the latter gives
    a row. *)
Theorem input_array_unknown_key self inf nms ids record k :
  in_fields self = Some inf →
  sorted_headers inf = OK (nms, ids) →
  in_header_names self = Some nms →
  in_header_ids self = Some ids →
  fields inf !! k = None →
  fields_by_name inf !! k = None →
  build self record = build self (Py.del k record).
Proof.
  intros Hin Hhdr Hnms Hids Hid Hname.
  assert (resolve_key inf k = k) as Hk.
  { unfold resolve_key. by rewrite Hid, Hname. }
  assert (k ∉ ids) as Hnotin.
  { intros Hel. apply list_elem_of_lookup in Hel as [i Hi].
    destruct (Forall2_lookup_r _ _ _ _ _ (sorted_headers_ok _ _ _ Hhdr) Hi)
      as (column & _ & _ & [desc Hdesc]).
    by rewrite Hid in Hdesc. }
  assert (∀ d, build self d
               = d' ← casted (Py.del k (resolved inf d [])) (fields inf);
                 OK (row_of ids d')) as Hbuild.
  { intros d. rewrite (_input_array_unfold self inf nms ids) by done.
    rewrite cast_del by done.
    destruct (casted (resolved inf d []) (fields inf)); [|done]. simpl.
    by rewrite row_of_del. }
  rewrite !Hbuild.
  by rewrite (resolved_del inf record k [] []).
Qed.

End RowBuilder.

(** ** Construction and sampling *)

Section Construction.
Context {sexp resource sample : Type}.
Variable get_resource_dict : resource → result (option string * payload sexp).
Variable get_status : dataset_info sexp → result (option Z).
Variable FINISHED : Z.
Variable DEFAULT_LOCALE : string.
Variable Fields_new : dataset_info sexp → result Fields.
Variable api_get_dataset : string → resource.
Variable api_create_sample : option string → sample.
Variable api_ok : sample → bool.
Variable api_get_sample : sample → Z → option (list (list value)).
Variable cast_value : descriptor → value → result value.
Variable evaluate_sexp : option sexp → gmap string descriptor → option string.
Variable eval_and_apply_sexp :
  option sexp → gmap string descriptor → list (list value) →
  list (list value).

Local Abbreviation construct :=
  (Dataset_init get_resource_dict get_status FINISHED DEFAULT_LOCALE
     Fields_new api_get_dataset).
Local Abbreviation build := (_input_array cast_value).
Local Abbreviation transform_rows :=
  (_transform evaluate_sexp eval_and_apply_sexp).
Local Abbreviation run :=
  (transform cast_value evaluate_sexp eval_and_apply_sexp).

Implicit Types (self node : Dataset sexp).

(** C5. On a node without origin [get_inputs_sample] raises the usage
    error, whatever number of rows is asked for. *)
Theorem get_inputs_sample_no_origin self (rows_number : Z) :
  origin_dataset self = None →
  get_inputs_sample api_create_sample api_ok api_get_sample
    self rows_number = Raise NoOrigin.
Proof. intros H. unfold get_inputs_sample. by rewrite H. Qed.

(** Without transformations, or without input schema, nothing can be
    transformed. *)
Lemma transform_rows_raises self (input_arrays : list (list value)) :
  in_fields self = None ∨ transformations self = None →
  ∃ e, transform_rows self input_arrays = Raise e.
Proof.
  intros H. unfold _transform.
  destruct (in_fields self); simpl; [|by eexists].
  destruct H as [H|H]; [done|]. rewrite H. by eexists.
Qed.

Lemma transform_raises self (records : list (Py.dict value)) :
  in_fields self = None ∨ transformations self = None →
  ∃ e, run self records = Raise e.
Proof.
  intros H. unfold transform.
  destruct (mapM _ records) as [arrs|]; simpl; [|by eexists].
  destruct (transform_rows_raises self arrs H) as [e ->]. by eexists.
Qed.

Lemma input_array_raises self (record : Py.dict value) :
  in_fields self = None →
  ∃ e, build self record = Raise e.
Proof.
  intros H. unfold _input_array. destruct record as [|[key v] record].
  - simpl. rewrite H. by eexists.
  - simpl. destruct (in_header_ids self); simpl; [|by eexists].
    rewrite H. by eexists.
Qed.

(** C7. For a payload whose status is not the finished one, the
    constructor returns a node (one call, no recursion) whose output and
    input schemas are null and which holds no generator (the attribute
    is null); with that node the row builder, [_transform] and
    [transform] raise on every input. *)
Theorem unfinished_node depth (r : resource) rid p st :
  get_resource_dict r = OK (rid, p) →
  get_status (dataset_of p) = OK st →
  st ≠ Some FINISHED →
  ∃ node,
    construct (S depth) r = OK node
    ∧ out_fields node = None
    ∧ in_fields node = None
    ∧ transformations node = None
    ∧ (∀ record, ∃ e, build node record = Raise e)
    ∧ (∀ input_arrays, ∃ e, transform_rows node input_arrays = Raise e)
    ∧ (∀ records, ∃ e, run node records = Raise e).
Proof.
  intros Hr Hst Hne. eexists. split.
  - simpl. rewrite Hr. simpl.
    destruct (p_fields (dataset_of p)); [|reflexivity].
    rewrite Hst. simpl. by rewrite bool_decide_eq_false_2.
  - repeat split; try done.
    + intros record. by apply input_array_raises.
    + intros arrs. apply transform_rows_raises. by left.
    + intros records. apply transform_raises. by left.
Qed.

(** C9. The constructor never stores an empty list of transformations:
    the attribute of a constructed node is null or a non-empty list; it
    is null when the payload names no origin dataset or lists no output
    field; and [transform], which iterates the attribute without a
    test, raises on a node where it is null. *)
Theorem transformations_null_or_nonempty depth (r : resource) node :
  construct depth r = OK node →
  (transformations node = None
   ∨ ∃ g gens, transformations node = Some (g :: gens))
  ∧ (∀ rid p, get_resource_dict r = OK (rid, p) →
       truthy (p_origin_dataset (dataset_of p)) = false
       ∨ default [] (p_output_fields (dataset_of p)) = [] →
       transformations node = None)
  ∧ (transformations node = None →
     ∀ records, ∃ e, run node records = Raise e).
Proof.
  intros H.
  assert (∃ rid p, get_resource_dict r = OK (rid, p)
            ∧ (transformations node = None
               ∨ truthy (p_origin_dataset (dataset_of p)) = true
                 ∧ ∃ g gens,
                     get_new_fields
                       (default [] (p_output_fields (dataset_of p)))
                     = g :: gens
                     ∧ transformations node = Some (g :: gens)))
    as (rid & p & Hr & Hcases).
  { destruct depth as [|depth]; [done|]. simpl in H.
    destruct (get_resource_dict r) as [[rid p]|]; [|done]. simpl in H.
    exists rid, p. split; [done|].
    destruct (p_fields (dataset_of p)) as [_|];
      [|left; by injection H as <-].
    destruct (get_status (dataset_of p)) as [st|]; [|done]. simpl in H.
    destruct (bool_decide (st = Some FINISHED));
      [|left; by injection H as <-].
    destruct (Fields_new (dataset_of p)) as [out|]; [|done]. simpl in H.
    destruct (sorted_headers out) as [[out_names ?]|]; [|done]. simpl in H.
    destruct (p_description (dataset_of p)); [|done]. simpl in H.
    destruct (truthy (p_origin_dataset (dataset_of p))) eqn:Horigin;
      [|left; by injection H as <-].
    unfold add_transformations in H.
    destruct (construct depth _) as [origin|]; [|done]. simpl in H.
    destruct (out_fields origin) as [inf|]; [|done]. simpl in H.
    destruct (sorted_headers inf) as [[in_names in_ids]|]; [|done].
    simpl in H. injection H as <-. simpl.
    destruct (get_new_fields _) as [|g gens]; [by left|].
    right. split; [done|]. by exists g, gens. }
  split; [|split].
  - destruct Hcases as [?|(_ & g & gens & _ & ?)]; [by left|].
    right. by exists g, gens.
  - intros rid' p' Hr' Hempty. rewrite Hr in Hr'. injection Hr' as <- <-.
    destruct Hcases as [?|(Horigin & g & gens & Hnew & _)]; [done|].
    destruct Hempty as [Hno|Hno]; [congruence|].
    by rewrite Hno in Hnew.
  - intros Hnone records. apply transform_raises. by right.
Qed.

End Construction.

(** ** The engine on generators that emit one row each *)

Section SingleRow.
Context {sexp : Type}.
Variable evaluate_sexp : option sexp → gmap string descriptor → option string.
Variable eval_and_apply_sexp :
  option sexp → gmap string descriptor → list (list value) →
  list (list value).

Local Abbreviation engine :=
  (apply_transformations evaluate_sexp eval_and_apply_sexp).

Lemma engine_one_row flds input_arrays gens group headers :
  Forall (one_row evaluate_sexp eval_and_apply_sexp flds input_arrays)
    gens →
  length group = length headers →
  ∃ group' headers',
    engine flds input_arrays gens [group] headers = OK ([group'], headers')
    ∧ length group' = length headers'.
Proof.
  intros H. revert group headers.
  induction H as [|g gens (Hcheck & ns & columns & Hns & Hrun & Hlen) _ IH];
    intros group headers Hgroup; simpl.
  - by eexists _, _.
  - rewrite Hcheck, Hrun, Hns. simpl. apply IH.
    rewrite !length_app. lia.
Qed.

(** When every generator emits one row with as many columns as it has
    names, every output row is as long as the header list. *)
Lemma transform_rows_lengths_one_row (self : Dataset sexp) inf gens
    (input_arrays : list (list value)) :
  in_fields self = Some inf →
  transformations self = Some gens →
  Forall (one_row evaluate_sexp eval_and_apply_sexp (fields inf)
            input_arrays) gens →
  ∃ headers out_arrays,
    _transform evaluate_sexp eval_and_apply_sexp self input_arrays
    = OK (headers, out_arrays)
    ∧ Forall (fun row => length row = length headers) out_arrays.
Proof.
  intros Hin Hgens Hall. unfold _transform. rewrite Hin, Hgens. simpl.
  destruct Hall as [|g gens' (Hcheck & ns & columns & Hns & Hrun & Hlen) Hall].
  - simpl. by eexists _, _.
  - simpl. rewrite Hcheck, Hrun, Hns. simpl.
    destruct (engine_one_row (fields inf) input_arrays gens' columns ns
                Hall Hlen) as (group' & headers' & -> & Hlen').
    simpl. eexists _, _. split; [done|]. by constructor.
Qed.

End SingleRow.

(** ** The scenario, run *)

Section Runs.
Import Scenario.

Example build_row_full :
  build_row (node None) [("a", VInt 2); ("b", VInt 3)] = OK [VInt 2; VInt 3].
Proof. reflexivity. Qed.

Example build_row_missing_field :
  build_row (node None) [("a", VInt 2)] = OK [VInt 2; VNone].
Proof. reflexivity. Qed.

Example transform_sum :
  run_transform (node (Some [sum])) [[("a", VInt 2); ("b", VInt 3)]]
  = OK [[("sum", VInt 5)]].
Proof. reflexivity. Qed.

Example construct_derived :
  (n ← construct 2 "dataset/2";
   run_transform n [[("a", VInt 2); ("b", VInt 3)]])
  = OK [[("sum", VInt 5)]].
Proof. vm_compute. reflexivity. Qed.

(** With two records and two generators the names of the first
    generator label the columns of the second one. *)
Example transform_two_generators_two_records :
  run_transform
    (node (Some [sum; {| field := Some Field_a; names := Some ["a2"] |}]))
    [[("a", VInt 2); ("b", VInt 3)]; [("a", VInt 3); ("b", VInt 4)]]
  = OK [[("sum", VInt 2)]; [("sum", VInt 3)]].
Proof. reflexivity. Qed.

End Runs.

(** ** The properties at concrete inputs *)

Section Instances.
Import Scenario.

Lemma transform_no_generators_witness :
  transformations (node (Some [])) = Some []
  ∧ in_fields (node (Some [])) = Some schema
  ∧ (∀ input_arrays,
       run_transform_rows (node (Some [])) input_arrays = OK ([], []))
  ∧ run_transform (node (Some [])) [[("a", VInt 2)]; [("zzz", VStr "q")]]
    = OK [].
Proof.
  split; [reflexivity|]. split; [reflexivity|].
  apply (transform_no_generators cast_value evaluate_sexp eval_and_apply_sexp
           (node (Some [])) schema
           [[("a", VInt 2)]; [("zzz", VStr "q")]]).
  - reflexivity.
  - reflexivity.
  - repeat constructor.
Defined.

(** C1, as stated, fails: with the empty list of transformations
    [transform] raises on a record whose value cannot be cast; and the
    node the constructor builds for a dataset without new fields holds no
    list at all, so that [transform] raises on every record. *)
Lemma transform_no_generators_counterexample :
  (transformations (node (Some [])) = Some []
   ∧ run_transform (node (Some [])) [[("a", VStr "x")]]
     = Raise (CastError "Mismatch input data type"))
  ∧ (construct 2 "dataset/3" = OK without_new_fields
     ∧ run_transform without_new_fields [[("a", VInt 2); ("b", VInt 3)]]
       = Raise TypeError).
Proof.
  split; split; vm_compute; reflexivity.
Qed.

(** C2 at a failing input: one generator named "sum" applied to two input
    rows. The names are appended once per result row, so the header list
    has two entries while each of the two output rows has one. *)
Theorem transform_rows_headers_repeated :
  run_transform_rows (node (Some [sum]))
    [[VInt 2; VInt 3]; [VInt 3; VInt 4]]
  = OK (["sum"; "sum"], [[VInt 5]; [VInt 7]])
  ∧ ¬ Forall (fun row : list value => length row = length ["sum"; "sum"])
        [[VInt 5]; [VInt 7]].
Proof.
  split; [reflexivity|].
  intros H. apply Forall_cons_1 in H as [H _]. discriminate H.
Qed.

Lemma transform_check_failure_witness :
  in_fields (node (Some [sum; {| field := Some Malformed; names := None |}]))
  = Some schema
  ∧ evaluate_sexp (Some Malformed) (fields schema) = Some "unknown operator"
  ∧ run_transform
      (node (Some [sum; {| field := Some Malformed; names := None |}]))
      [[("a", VInt 2); ("b", VInt 3)]]
    = Raise (ExpressionError "unknown operator").
Proof.
  split; [reflexivity|]. split; [reflexivity|].
  refine (proj2 (transform_check_failure cast_value evaluate_sexp
                   eval_and_apply_sexp
                   (node (Some [sum; {| field := Some Malformed;
                                        names := None |}]))
                   schema [sum; {| field := Some Malformed; names := None |}]
                   [[("a", VInt 2); ("b", VInt 3)]] _ _ _)
            [[VInt 2; VInt 3]] [sum]
            {| field := Some Malformed; names := None |} []
            "unknown operator" ([[VInt 5]], ["sum"]) _ _ _ _);
    try reflexivity.
  apply Exists_cons_tl, Exists_cons_hd. by eexists.
Defined.

(** C3, as stated, fails: the check of the only generator reports an
    error, and what [transform] raises is the cast error of the row
    builder, which runs first. *)
Lemma transform_check_failure_counterexample :
  evaluate_sexp (Some Malformed) (fields schema) = Some "unknown operator"
  ∧ run_transform
      (node (Some [{| field := Some Malformed; names := Some ["m"] |}]))
      [[("a", VStr "x")]]
    = Raise (CastError "Mismatch input data type").
Proof. split; reflexivity. Qed.

Lemma input_array_positions_witness :
  sorted_headers schema = OK (["a"; "b"], ["000000"; "000001"])
  ∧ ∃ row,
      build_row (node None) [("zzz", VStr "q"); ("a", VInt 2)] = OK row
      ∧ length row = 2
      ∧ (∀ i column, fields_columns schema !! i = Some column →
           holds_field cast_value schema
             [("zzz", VStr "q"); ("a", VInt 2)] row i column)
      ∧ (fields_columns schema = seq 0 2 →
         ∀ i, i < length row →
           holds_field cast_value schema
             [("zzz", VStr "q"); ("a", VInt 2)] row i i).
Proof.
  split; [reflexivity|].
  apply (input_array_positions cast_value (node None) schema
           ["a"; "b"] ["000000"; "000001"]
           [("zzz", VStr "q"); ("a", VInt 2)]
           [("zzz", VStr "q"); ("000000", VInt 2)]); reflexivity.
Defined.

(** C4, as stated, fails: for a record whose value the casting rule of
    the field rejects the row builder returns no row at all. *)
Lemma input_array_positions_counterexample :
  build_row (node None) [("a", VStr "x")]
  = Raise (CastError "Mismatch input data type")
  ∧ ¬ ∃ row, build_row (node None) [("a", VStr "x")] = OK row.
Proof.
  split; [reflexivity|]. intros [row H]. discriminate H.
Qed.

Lemma get_inputs_sample_no_origin_witness :
  origin_dataset (node None) = None
  ∧ inputs_sample (node None) 32%Z = Raise NoOrigin.
Proof.
  split; [reflexivity|].
  apply (get_inputs_sample_no_origin (fun _ => tt) (fun _ => true)
           (fun _ _ => Some [[VInt 2; VInt 3]]) (node None) 32%Z).
  reflexivity.
Defined.

Lemma input_array_unknown_key_witness :
  fields schema !! "zzz" = None
  ∧ fields_by_name schema !! "zzz" = None
  ∧ build_row (node None) [("zzz", VStr "q"); ("a", VInt 2)]
    = build_row (node None) (Py.del "zzz" [("zzz", VStr "q"); ("a", VInt 2)]).
Proof.
  split; [reflexivity|]. split; [reflexivity|].
  apply (input_array_unknown_key cast_value (node None) schema
           ["a"; "b"] ["000000"; "000001"]); reflexivity.
Defined.

Lemma unfinished_node_witness :
  get_resource_dict "dataset/4" = OK (Some "dataset/4", wrapped (info 1 None None))
  ∧ ∃ n,
      construct 1 "dataset/4" = OK n
      ∧ out_fields n = None
      ∧ in_fields n = None
      ∧ transformations n = None
      ∧ (∀ record, ∃ e, build_row n record = Raise e)
      ∧ (∀ input_arrays, ∃ e, run_transform_rows n input_arrays = Raise e)
      ∧ (∀ records, ∃ e, run_transform n records = Raise e).
Proof.
  split; [reflexivity|].
  apply (unfinished_node get_resource_dict get_status FINISHED "en_US"
           Fields_new (fun id => id) cast_value evaluate_sexp
           eval_and_apply_sexp 0 "dataset/4" (Some "dataset/4")
           (wrapped (info 1 None None)) (Some 1%Z)).
  - reflexivity.
  - reflexivity.
  - discriminate.
Defined.

Lemma assemble_last_write_wins_witness :
  Py.get "a" (assemble ["a"; "b"; "a"; "c"] [VInt 1; VInt 2; VInt 3])
  = Some (VInt 3).
Proof.
  apply (assemble_last_write_wins ["a"; "b"; "a"; "c"]
           [VInt 1; VInt 2; VInt 3] 2 "a" (VInt 3)).
  - reflexivity.
  - reflexivity.
  - intros j Hlo Hhi. simpl in Hhi. lia.
Defined.

Lemma transformations_null_or_nonempty_witness :
  construct 2 "dataset/3" = OK without_new_fields
  ∧ transformations without_new_fields = None
  ∧ ∃ e, run_transform without_new_fields
           [[("a", VInt 2); ("b", VInt 3)]] = Raise e.
Proof.
  assert (construct 2 "dataset/3" = OK without_new_fields) as Hn
    by (vm_compute; reflexivity).
  split; [exact Hn|].
  destruct (transformations_null_or_nonempty get_resource_dict get_status
              FINISHED "en_US" Fields_new (fun id => id) cast_value
              evaluate_sexp eval_and_apply_sexp 2 "dataset/3"
              without_new_fields Hn)
    as (_ & Hnull & Hraise).
  assert (transformations without_new_fields = None) as Hnone.
  { apply (Hnull (Some "dataset/3")
             (wrapped (info 5 (Some "dataset/1") (Some [])))).
    - reflexivity.
    - right. reflexivity. }
  split; [exact Hnone|]. apply (Hraise Hnone).
Defined.

End Instances.


(** * Further properties of the module *)

(** ** sorted_headers *)

Section SortedHeaders.
Implicit Types (flds : Fields) (columns : list nat).

Lemma sorted_headers_loop_spec flds columns nms ids nms' ids' :
  sorted_headers_loop flds columns nms ids = OK (nms', ids') →
  ∃ new_nms new_ids,
    nms' = nms ++ new_nms ∧ ids' = ids ++ new_ids
    ∧ length new_nms = length columns ∧ length new_ids = length columns
    ∧ ∀ i column, columns !! i = Some column →
        ∃ id d, fields_by_column_number flds !! column = Some id
                ∧ fields flds !! id = Some d
                ∧ new_ids !! i = Some id ∧ new_nms !! i = Some (name d).
Proof.
  revert nms ids. induction columns as [|c columns IH]; intros nms ids; simpl.
  - intros [= <- <-]. exists [], []. by rewrite !app_nil_r.
  - destruct (fields_by_column_number flds !! c) as [id|] eqn:Hc; [|done].
    simpl. destruct (fields flds !! id) as [d|] eqn:Hid; [|done]. simpl.
    intros H. apply IH in H as (new_nms & new_ids & -> & -> & Hl1 & Hl2 & Hall).
    exists (name d :: new_nms), (id :: new_ids).
    rewrite <- !app_assoc. simpl. repeat split; try done; try lia.
    intros [|i] column Hi; simpl in *.
    + injection Hi as <-. by exists id, d.
    + by apply Hall.
Qed.

(** X1. When [sorted_headers] returns, both lists have one entry per
    column of [fields_columns], in that order: entry [i] of the ids is the
    id of the [i]-th column and entry [i] of the names is the name of
    that field. *)
Theorem sorted_headers_aligned flds nms ids :
  sorted_headers flds = OK (nms, ids) →
  length nms = length (fields_columns flds)
  ∧ length ids = length (fields_columns flds)
  ∧ ∀ i column, fields_columns flds !! i = Some column →
      ∃ id d, fields_by_column_number flds !! column = Some id
              ∧ fields flds !! id = Some d
              ∧ ids !! i = Some id ∧ nms !! i = Some (name d).
Proof.
  intros H.
  apply sorted_headers_loop_spec in H
    as (new_nms & new_ids & -> & -> & Hl1 & Hl2 & Hall).
  done.
Qed.

Lemma sorted_headers_loop_known flds columns nms ids :
  Forall (column_known flds) columns →
  ∃ nms' ids', sorted_headers_loop flds columns nms ids = OK (nms', ids').
Proof.
  intros H. revert nms ids.
  induction H as [|c columns (id & Hc & [d Hd]) _ IH]; intros nms ids; simpl.
  - by eexists _, _.
  - rewrite Hc. simpl. rewrite Hd. simpl. apply IH.
Qed.

Lemma sorted_headers_loop_unknown flds columns nms ids :
  Exists (fun column => ¬ column_known flds column) columns →
  sorted_headers_loop flds columns nms ids = Raise KeyError.
Proof.
  intros H. revert nms ids.
  induction H as [c columns Hc|c columns _ IH]; intros nms ids; simpl.
  - destruct (fields_by_column_number flds !! c) as [id|] eqn:Hid; [|done].
    simpl. destruct (fields flds !! id) as [d|] eqn:Hd; [|done].
    destruct Hc. exists id. split; [done | by eexists].
  - destruct (fields_by_column_number flds !! c) as [id|]; [|done]. simpl.
    destruct (fields flds !! id) as [d|]; [|done]. simpl. apply IH.
Qed.

Lemma sorted_headers_loop_raises flds columns nms ids e :
  sorted_headers_loop flds columns nms ids = Raise e → e = KeyError.
Proof.
  revert nms ids. induction columns as [|c columns IH]; intros nms ids; simpl;
    [done|].
  destruct (fields_by_column_number flds !! c) as [id|]; simpl;
    [|by intros [= <-]].
  destruct (fields flds !! id) as [d|]; simpl; [|by intros [= <-]].
  apply IH.
Qed.

(** X2. [sorted_headers] returns exactly when every column of
    [fields_columns] has an id in [fields_by_column_number] and that id a
    descriptor in [fields]; otherwise it raises KeyError, and nothing
    else. *)
Theorem sorted_headers_succeeds_iff flds :
  (Forall (column_known flds) (fields_columns flds) →
   ∃ nms ids, sorted_headers flds = OK (nms, ids))
  ∧ (Exists (fun column => ¬ column_known flds column)
       (fields_columns flds) →
     sorted_headers flds = Raise KeyError)
  ∧ (∀ e, sorted_headers flds = Raise e → e = KeyError).
Proof.
  split; [|split].
  - apply sorted_headers_loop_known.
  - apply sorted_headers_loop_unknown.
  - intros e. apply sorted_headers_loop_raises.
Qed.

End SortedHeaders.

(** ** The constructor *)

Section Lineage.
Context {sexp resource : Type}.
Variable get_resource_dict : resource → result (option string * payload sexp).
Variable get_status : dataset_info sexp → result (option Z).
Variable FINISHED : Z.
Variable DEFAULT_LOCALE : string.
Variable Fields_new : dataset_info sexp → result Fields.
Variable api_get_dataset : string → resource.

Local Abbreviation construct :=
  (Dataset_init get_resource_dict get_status FINISHED DEFAULT_LOCALE
     Fields_new api_get_dataset).

Implicit Types (node origin : Dataset sexp).

(** X3. The shape of a constructed node. Either it has no origin, and
    then no input schema, no input header and no transformation, which
    happens only when the payload has no fields, is not finished or names
    no origin dataset; or the payload names an origin dataset, the origin
    of the node is the node constructed, one call deeper, for what the
    API returns for that name, the input schema of the node is the output
    schema of that origin, and its input headers are the ones
    [sorted_headers] computes from that schema. *)
Theorem constructed_node_shape depth (r : resource) rid p node :
  get_resource_dict r = OK (rid, p) →
  construct depth r = OK node →
  (origin_dataset node = None ∧ in_fields node = None
   ∧ in_header_names node = None ∧ in_header_ids node = None
   ∧ transformations node = None
   ∧ (p_fields (dataset_of p) = None
      ∨ get_status (dataset_of p) ≠ OK (Some FINISHED)
      ∨ truthy (p_origin_dataset (dataset_of p)) = false))
  ∨ ∃ depth' id origin inf nms ids,
      depth = S depth'
      ∧ p_origin_dataset (dataset_of p) = Some id
      ∧ id ≠ ""
      ∧ construct depth' (api_get_dataset id) = OK origin
      ∧ origin_dataset node = Some origin
      ∧ out_fields origin = Some inf
      ∧ in_fields node = Some inf
      ∧ sorted_headers inf = OK (nms, ids)
      ∧ in_header_names node = Some nms
      ∧ in_header_ids node = Some ids.
Proof.
  intros Hr H. destruct depth as [|depth]; [done|]. simpl in H.
  rewrite Hr in H. simpl in H.
  destruct (p_fields (dataset_of p)) as [f|];
    [|left; injection H as <-; repeat split; by left].
  destruct (get_status (dataset_of p)) as [st|]; [|done]. simpl in H.
  destruct (bool_decide (st = Some FINISHED)) eqn:Hst.
  2:{ left. injection H as <-. repeat split. right. left.
      apply bool_decide_eq_false in Hst. congruence. }
  destruct (Fields_new (dataset_of p)) as [out|]; [|done]. simpl in H.
  destruct (sorted_headers out) as [[out_names ?]|]; [|done]. simpl in H.
  destruct (p_description (dataset_of p)); [|done]. simpl in H.
  destruct (truthy (p_origin_dataset (dataset_of p))) eqn:Horig;
    [|left; injection H as <-; repeat split; by right; right].
  destruct (p_origin_dataset (dataset_of p)) as [id|]; [|done].
  simpl in Horig, H.
  unfold add_transformations in H.
  destruct (construct depth _) as [origin|] eqn:Horigin; [|done].
  simpl in H.
  destruct (out_fields origin) as [inf|] eqn:Hinf; [|done]. simpl in H.
  destruct (sorted_headers inf) as [[in_names in_ids]|] eqn:Hhdr; [|done].
  simpl in H. injection H as <-. right.
  exists depth, id, origin, inf, in_names, in_ids.
  repeat split; try done.
  intros ->. simpl in Horig. done.
Qed.

(** X4. The transformations of a constructed node are the payload's
    output fields, in their order: entry [i] carries the generator and the
    names of output field [i]; and a node that has transformations was
    built from a payload that names an origin dataset. *)
Theorem constructed_transformations depth (r : resource) node rid p gens :
  construct depth r = OK node →
  get_resource_dict r = OK (rid, p) →
  transformations node = Some gens →
  truthy (p_origin_dataset (dataset_of p)) = true
  ∧ length gens = length (default [] (p_output_fields (dataset_of p)))
  ∧ ∀ i, gens !! i
         = (fun o => {| field := of_generator sexp o;
                        names := of_names sexp o |})
           <$> default [] (p_output_fields (dataset_of p)) !! i.
Proof.
  intros H Hr Hgens. destruct depth as [|depth]; [done|]. simpl in H.
  rewrite Hr in H. simpl in H.
  assert (∀ n, OK (mkDataset rid None None None None None None None None
                     None None) = OK n → transformations n = Some gens →
               False) as Hblank.
  { intros n [= <-]. done. }
  destruct (p_fields (dataset_of p)) as [_|]; [|by destruct (Hblank node)].
  destruct (get_status (dataset_of p)) as [st|]; [|done]. simpl in H.
  destruct (bool_decide (st = Some FINISHED));
    [|by destruct (Hblank node)].
  destruct (Fields_new (dataset_of p)) as [out|]; [|done]. simpl in H.
  destruct (sorted_headers out) as [[out_names ?]|]; [|done]. simpl in H.
  destruct (p_description (dataset_of p)); [|done]. simpl in H.
  destruct (truthy (p_origin_dataset (dataset_of p)));
    [|injection H as <-; done].
  unfold add_transformations in H.
  destruct (construct depth _) as [origin|]; [|done]. simpl in H.
  destruct (out_fields origin) as [inf|]; [|done]. simpl in H.
  destruct (sorted_headers inf) as [[in_names in_ids]|]; [|done].
  simpl in H. injection H as <-. simpl in Hgens.
  assert (gens = get_new_fields (default [] (p_output_fields (dataset_of p))))
    as ->.
  { destruct (get_new_fields _); [done | by injection Hgens]. }
  split; [done|]. unfold get_new_fields. split.
  - by rewrite length_map.
  - intros i. by rewrite list_lookup_fmap.
Qed.

(** X5. A derived dataset whose origin was constructed without output
    schema (an origin that is not finished, or has no fields) cannot be
    constructed: reading the headers of the missing input schema raises
    AttributeError. *)
Theorem construct_origin_without_schema depth (r : resource)
    rid p f out nms ids descr origin :
  get_resource_dict r = OK (rid, p) →
  p_fields (dataset_of p) = Some f →
  get_status (dataset_of p) = OK (Some FINISHED) →
  Fields_new (dataset_of p) = OK out →
  sorted_headers out = OK (nms, ids) →
  p_description (dataset_of p) = Some descr →
  truthy (p_origin_dataset (dataset_of p)) = true →
  construct depth
    (api_get_dataset (default "" (p_origin_dataset (dataset_of p))))
  = OK origin →
  out_fields origin = None →
  construct (S depth) r = Raise AttributeError.
Proof.
  intros Hr Hf Hst Hout Hhdr Hdescr Horigin Hcons Hnone. simpl.
  rewrite Hr. simpl. rewrite Hf, Hst. simpl.
  rewrite bool_decide_eq_true_2 by done.
  rewrite Hout. simpl. rewrite Hhdr. simpl. rewrite Hdescr. simpl.
  rewrite Horigin. unfold add_transformations. rewrite Hcons. simpl.
  by rewrite Hnone.
Qed.

(** X6. "description" is the one entry of a finished payload the
    constructor subscripts: when it is absent the constructor raises
    KeyError, whatever the other entries are. *)
Theorem construct_without_description depth (r : resource)
    rid p f out nms ids :
  get_resource_dict r = OK (rid, p) →
  p_fields (dataset_of p) = Some f →
  get_status (dataset_of p) = OK (Some FINISHED) →
  Fields_new (dataset_of p) = OK out →
  sorted_headers out = OK (nms, ids) →
  p_description (dataset_of p) = None →
  construct (S depth) r = Raise KeyError.
Proof.
  intros Hr Hf Hst Hout Hhdr Hdescr. simpl.
  rewrite Hr. simpl. rewrite Hf, Hst. simpl.
  rewrite bool_decide_eq_true_2 by done.
  rewrite Hout. simpl. rewrite Hhdr. simpl. by rewrite Hdescr.
Qed.

(** X7. Allowing deeper recursion does not change what the constructor
    returns: a node built within [depth] nested calls is built, the same,
    within any larger number. *)
Theorem construct_depth_monotone depth depth' (r : resource) node :
  construct depth r = OK node →
  depth ≤ depth' →
  construct depth' r = OK node.
Proof.
  intros H Hle. induction Hle as [|depth' _ IH]; [done|].
  clear H. revert r node IH. induction depth' as [|d IHd]; intros r node H;
    [done|].
  remember (S d) as d1 eqn:Hd1. simpl. rewrite Hd1 in H. simpl in H.
  destruct (get_resource_dict r) as [[rid p]|]; [|done]. simpl in *.
  destruct (p_fields (dataset_of p)) as [_|]; [|done].
  destruct (get_status (dataset_of p)) as [st|]; [|done]. simpl in *.
  destruct (bool_decide (st = Some FINISHED)); [|done].
  destruct (Fields_new (dataset_of p)) as [out|]; [|done]. simpl in *.
  destruct (sorted_headers out) as [[out_names ?]|]; [|done]. simpl in *.
  destruct (p_description (dataset_of p)); [|done]. simpl in *.
  destruct (truthy (p_origin_dataset (dataset_of p))); [|done].
  unfold add_transformations in *.
  destruct (construct d _) as [origin|] eqn:Horigin; [|done].
  apply IHd in Horigin. by rewrite Horigin.
Qed.

End Lineage.

(** ** The row builder, continued *)

Section DictEntries.
Context {V : Type}.
Implicit Types (d : Py.dict V) (k : string) (v : V).

Lemma elem_of_set k v k0 v0 d :
  (k0, v0) ∈ Py.set k v d → (k0, v0) = (k, v) ∨ (k0, v0) ∈ d.
Proof.
  induction d as [|[k' v'] d IH]; simpl.
  - intros H%list_elem_of_singleton. by left.
  - destruct (decide (k = k')) as [->|Hne].
    + intros [H|H]%elem_of_cons; [by left|].
      right. apply elem_of_cons. by right.
    + intros [H|H]%elem_of_cons.
      * right. apply elem_of_cons. by left.
      * destruct (IH H) as [?|?]; [by left|].
        right. apply elem_of_cons. by right.
Qed.

Lemma elem_of_insert_pairs k0 v0 (pairs : list (string * V)) d :
  (k0, v0) ∈ fold_left (fun d kv => Py.set kv.1 kv.2 d) pairs d →
  (k0, v0) ∈ pairs ∨ (k0, v0) ∈ d.
Proof.
  revert d. induction pairs as [|[k v] pairs IH]; intros d H; simpl in *.
  - by right.
  - destruct (IH _ H) as [?|Hd]; [left; apply elem_of_cons; by right|].
    destruct (elem_of_set _ _ _ _ _ Hd) as [->|?]; [|by right].
    left. apply elem_of_cons. by left.
Qed.

(** A dictionary built by insertions has every key once. *)
Lemma NoDup_set k v d : NoDup d.*1 → NoDup (Py.set k v d).*1.
Proof.
  induction d as [|[k' v'] d IH]; simpl.
  - intros _. apply NoDup_singleton.
  - intros [Hnotin Hd]%NoDup_cons. destruct (decide (k = k')) as [->|Hne];
      simpl; apply NoDup_cons; split; try done.
    + intros ((k0 & v0) & Heq & [[= <- <-]|Hin]%elem_of_set)%list_elem_of_fmap;
        simpl in *; [done|].
      apply Hnotin, list_elem_of_fmap. by exists (k0, v0).
    + by apply IH.
Qed.

Lemma NoDup_insert_pairs (pairs : list (string * V)) d :
  NoDup d.*1 →
  NoDup (fold_left (fun d kv => Py.set kv.1 kv.2 d) pairs d).*1.
Proof.
  revert d. induction pairs as [|[k v] pairs IH]; intros d Hd; simpl;
    [done|]. by apply IH, NoDup_set.
Qed.

Lemma get_Some_elem_of k v d : Py.get k d = Some v → (k, v) ∈ d.
Proof.
  induction d as [|[k' v'] d IH]; simpl; [done|].
  destruct (decide (k = k')) as [->|Hne].
  - intros [= ->]. apply elem_of_cons. by left.
  - intros H. apply elem_of_cons. right. by apply IH.
Qed.

Lemma elem_of_get_Some k v d : NoDup d.*1 → (k, v) ∈ d → Py.get k d = Some v.
Proof.
  induction d as [|[k' v'] d IH]; simpl.
  - by intros _ ?%elem_of_nil.
  - intros [Hnotin Hd]%NoDup_cons [[= -> ->]|Hin]%elem_of_cons.
    + by rewrite decide_True.
    + rewrite decide_False; [by apply IH|].
      intros ->. apply Hnotin, list_elem_of_fmap. by exists (k', v).
Qed.

End DictEntries.

Section RowBuilderMore.
Context {sexp : Type}.
Variable cast_value : descriptor → value → result value.

Local Abbreviation build := (_input_array cast_value).
Local Abbreviation casted := (cast cast_value).

Implicit Types (self : Dataset sexp) (inf : Fields).
Implicit Types (record : list (string * value)) (k id : string).

(** X8. On the empty record the row builder returns one null per header
    id; it needs the input schema and the header ids only, and asks the
    casting rule nothing. *)
Theorem input_array_empty_record self inf ids :
  in_fields self = Some inf →
  in_header_ids self = Some ids →
  _input_array cast_value self [] = OK (replicate (length ids) VNone).
Proof.
  intros Hin Hids. unfold _input_array. simpl. rewrite Hin. simpl.
  rewrite Hids. simpl. f_equal. clear Hids.
  induction ids as [|id ids IH]; simpl; [done | by rewrite IH].
Qed.

Lemma resolve_key_idempotent inf k :
  (∀ n id, fields_by_name inf !! n = Some id → is_Some (fields inf !! id)) →
  resolve_key inf (resolve_key inf k) = resolve_key inf k.
Proof.
  intros Hwf. unfold resolve_key.
  destruct (fields inf !! k) as [d|] eqn:Hk; [by rewrite Hk|].
  destruct (fields_by_name inf !! k) as [id|] eqn:Hn; simpl.
  - destruct (Hwf _ _ Hn) as [d Hd]. by rewrite Hd.
  - by rewrite Hk, Hn.
Qed.

(** X9. Names and ids are interchangeable as record keys: when every
    name of the catalogue stands for one of its fields, replacing each key
    of the record by the id it resolves to changes nothing in what the
    row builder returns. *)
Theorem input_array_keys_resolved_first self inf nms ids record :
  in_fields self = Some inf →
  in_header_names self = Some nms →
  in_header_ids self = Some ids →
  (∀ n id, fields_by_name inf !! n = Some id → is_Some (fields inf !! id)) →
  build self ((fun kv => (resolve_key inf kv.1, kv.2)) <$> record)
  = build self record.
Proof.
  intros Hin Hnms Hids Hwf.
  rewrite !(_input_array_unfold cast_value self inf nms ids) by done.
  assert (∀ acc, resolved inf ((fun kv => (resolve_key inf kv.1, kv.2))
                                 <$> record) acc
                 = resolved inf record acc) as ->; [|done].
  induction record as [|[key v] record IH]; intros acc; [done|].
  unfold resolved in *. simpl. rewrite resolve_key_idempotent by done.
  apply IH.
Qed.

(** X10. When several entries of the record resolve to the same field, by
    id or by name, the last of them decides the cell of that field: the
    cell holds what the casting rule gives for the value of that entry. *)
Theorem input_array_last_entry_wins self inf nms ids record row
    j key v i id desc :
  in_fields self = Some inf →
  in_header_names self = Some nms →
  in_header_ids self = Some ids →
  record !! j = Some (key, v) →
  resolve_key inf key = id →
  (∀ j' key' v', j < j' → record !! j' = Some (key', v') →
                 resolve_key inf key' ≠ id) →
  ids !! i = Some id →
  fields inf !! id = Some desc →
  build self record = OK row →
  ∃ cell, row !! i = Some cell ∧ cast_value desc v = OK cell.
Proof.
  intros Hin Hnms Hids Hj Hres Hlast Hi Hdesc Hrow.
  rewrite (_input_array_unfold cast_value self inf nms ids) in Hrow by done.
  destruct (casted (resolved inf record []) (fields inf)) as [d|] eqn:Hcast;
    [|done].
  simpl in Hrow. injection Hrow as <-.
  pose proof (cast_get cast_value _ _ _ id Hcast) as Hget.
  rewrite (resolved_supplied inf record j key v id) in Hget by done.
  destruct Hget as (cell & Hcell & Hrule). rewrite Hdesc in Hrule.
  exists cell. split; [|done].
  unfold row_of. rewrite list_lookup_fmap, Hi. simpl. by rewrite Hcell.
Qed.

Lemma cast_raises (d : Py.dict value) flds e :
  casted d flds = Raise e →
  ∃ k v desc, (k, v) ∈ d ∧ flds !! k = Some desc
              ∧ cast_value desc v = Raise e.
Proof.
  induction d as [|[k0 v0] d IH]; simpl; [done|].
  destruct (flds !! k0) as [desc|] eqn:Hk0.
  - destruct (cast_value desc v0) as [v0'|e0] eqn:Hv0; simpl.
    + destruct (casted d flds) as [rest|e1]; simpl; [done|].
      intros [= <-]. destruct IH as (k & v & desc' & Hin & Hk & Hrule);
        [done|].
      exists k, v, desc'. split; [apply elem_of_cons; by right | done].
    + intros [= <-]. exists k0, v0, desc.
      split; [apply elem_of_cons; by left | done].
  - simpl. destruct (casted d flds) as [rest|e1]; simpl; [done|].
    intros [= <-]. destruct IH as (k & v & desc' & Hin & Hk & Hrule);
      [done|].
    exists k, v, desc'. split; [apply elem_of_cons; by right | done].
Qed.

Lemma elem_of_resolved inf record k v :
  (k, v) ∈ resolved inf record [] →
  ∃ key, (key, v) ∈ record ∧ resolve_key inf key = k.
Proof.
  rewrite resolved_as_pairs. intros [H|H]%elem_of_insert_pairs.
  - apply list_elem_of_fmap in H as ([key w] & [= -> ->] & Hin).
    by exists key.
  - by apply elem_of_nil in H.
Qed.

(** X11. On a node with input schema and headers, the only errors of the
    row builder are those of the casting rule: what it raises is raised
    by the rule of a field of the catalogue for the value of a record
    entry whose key resolves to that field. *)
Theorem input_array_raises_cast_errors self inf nms ids record e :
  in_fields self = Some inf →
  in_header_names self = Some nms →
  in_header_ids self = Some ids →
  build self record = Raise e →
  ∃ key v desc,
    (key, v) ∈ record
    ∧ fields inf !! resolve_key inf key = Some desc
    ∧ cast_value desc v = Raise e.
Proof.
  intros Hin Hnms Hids H.
  rewrite (_input_array_unfold cast_value self inf nms ids) in H by done.
  destruct (casted (resolved inf record []) (fields inf)) as [d|e'] eqn:Hcast;
    [done|].
  simpl in H. injection H as ->.
  apply cast_raises in Hcast as (k & v & desc & Hin' & Hk & Hrule).
  apply elem_of_resolved in Hin' as (key & Hkey & <-).
  by exists key, v, desc.
Qed.

Lemma cast_accepts (d : Py.dict value) flds :
  (∀ k v desc, (k, v) ∈ d → flds !! k = Some desc →
               ∃ v', cast_value desc v = OK v') →
  ∃ d', casted d flds = OK d'.
Proof.
  induction d as [|[k0 v0] d IH]; intros Hall; simpl; [by eexists|].
  destruct IH as [rest Hrest].
  { intros k v desc Hin. apply Hall, elem_of_cons. by right. }
  rewrite Hrest. destruct (flds !! k0) as [desc|] eqn:Hk0.
  - destruct (Hall k0 v0 desc) as [v0' ->];
      [apply elem_of_cons; by left | done |]. by eexists.
  - by eexists.
Qed.

(** X12. When the casting rule accepts every value of the record for the
    field its key resolves to, the row builder returns a row, with one
    cell per header id. *)
Theorem input_array_returns self inf nms ids record :
  in_fields self = Some inf →
  in_header_names self = Some nms →
  in_header_ids self = Some ids →
  (∀ key v desc, (key, v) ∈ record →
     fields inf !! resolve_key inf key = Some desc →
     ∃ v', cast_value desc v = OK v') →
  ∃ row, build self record = OK row ∧ length row = length ids.
Proof.
  intros Hin Hnms Hids Hall.
  rewrite (_input_array_unfold cast_value self inf nms ids) by done.
  destruct (cast_accepts (resolved inf record []) (fields inf)) as [d ->].
  { intros k v desc (key & Hkey & <-)%elem_of_resolved Hk.
    by apply (Hall key). }
  simpl. eexists. split; [done|]. unfold row_of. by rewrite length_map.
Qed.

End RowBuilderMore.

(** ** The transformation engine, continued *)

Section RowGroups.
Implicit Types (groups new_input : list (list value)).
Implicit Types (results : list (list (list value))).

Lemma merge_groups_nil_r groups : merge_groups groups [] = groups.
Proof. by destruct groups. Qed.

Lemma length_merge_groups groups new_input :
  length (merge_groups groups new_input)
  = length groups `max` length new_input.
Proof.
  revert new_input. induction groups as [|g groups IH]; intros [|r rs];
    simpl; try done. by rewrite IH.
Qed.

Lemma lookup_merge_groups groups new_input k :
  k < length groups `max` length new_input →
  merge_groups groups new_input !! k
  = Some (default [] (groups !! k) ++ default [] (new_input !! k)).
Proof.
  revert new_input k. induction groups as [|g groups IH];
    intros [|r rs] k Hk; simpl in *.
  - lia.
  - destruct (lookup_lt_is_Some_2 (r :: rs) k) as [x Hx]; [simpl; lia|].
    by rewrite Hx.
  - destruct (lookup_lt_is_Some_2 (g :: groups) k) as [x Hx]; [simpl; lia|].
    rewrite Hx. simpl. by rewrite app_nil_r.
  - destruct k as [|k]; simpl; [done|]. apply IH. lia.
Qed.

Lemma row_group_cons k new_input results :
  row_group k (new_input :: results)
  = default [] (new_input !! k) ++ row_group k results.
Proof. unfold row_group. simpl. by destruct (new_input !! k). Qed.

(** The row groups after all the generators: as many as the longest
    result, group [k] being the result rows [k] one after the other. *)
Lemma merge_all_groups results groups :
  length (fold_left merge_groups results groups)
  = length groups `max` max_list (length <$> results)
  ∧ ∀ k, k < length groups `max` max_list (length <$> results) →
      fold_left merge_groups results groups !! k
      = Some (default [] (groups !! k) ++ row_group k results).
Proof.
  revert groups. induction results as [|res results IH]; intros groups.
  - simpl. split; [lia|]. intros k Hk. unfold row_group. simpl.
    rewrite app_nil_r.
    destruct (lookup_lt_is_Some_2 groups k) as [x ->]; [lia | done].
  - destruct (IH (merge_groups groups res)) as [Hlen Hlookup].
    rewrite length_merge_groups in Hlen, Hlookup.
    rewrite fmap_cons. cbn [fold_left max_list_with].
    change (id (length res)) with (length res). split; [lia|].
    intros k Hk. rewrite Hlookup by lia. rewrite row_group_cons.
    destruct (decide (k < length groups `max` length res)) as [Hlt|Hge].
    + rewrite lookup_merge_groups by done. simpl. by rewrite app_assoc.
    + rewrite (lookup_ge_None_2 (merge_groups groups res))
        by (rewrite length_merge_groups; lia).
      rewrite (lookup_ge_None_2 groups) by lia.
      by rewrite (lookup_ge_None_2 res) by lia.
Qed.

(** The inner loop of [_transform] with names at hand. *)
Lemma extend_groups_merge new_input ns (done_groups groups : list (list value))
    headers :
  extend_groups (length done_groups) new_input (Some ns)
    (done_groups ++ groups) headers
  = OK (done_groups ++ merge_groups groups new_input,
        headers ++ concat (replicate (length new_input) ns)).
Proof.
  revert done_groups groups headers.
  induction new_input as [|r rs IH]; intros pre groups headers; simpl.
  - by rewrite merge_groups_nil_r, app_nil_r.
  - destruct groups as [|g groups].
    + rewrite app_nil_r. rewrite lookup_ge_None_2 by lia.
      rewrite list_lookup_middle by done. simpl.
      rewrite insert_app_r_alt by lia. rewrite Nat.sub_diag. simpl.
      replace (S (length pre)) with (length (pre ++ [r]))
        by (rewrite length_app; simpl; lia).
      rewrite <- (app_nil_r (pre ++ [r])) at 2. rewrite IH.
      by rewrite <- !app_assoc.
    + rewrite list_lookup_middle by done. simpl.
      rewrite list_lookup_middle by done. simpl.
      rewrite insert_app_r_alt by lia. rewrite Nat.sub_diag. simpl.
      replace (S (length pre)) with (length (pre ++ [g ++ r]))
        by (rewrite length_app; simpl; lia).
      replace (pre ++ (g ++ r) :: groups) with ((pre ++ [g ++ r]) ++ groups)
        by (by rewrite <- app_assoc).
      rewrite IH. by rewrite <- !app_assoc.
Qed.

(** Without names the inner loop raises as soon as there is a row. *)
Lemma extend_groups_no_names new_input groups headers :
  new_input ≠ [] →
  extend_groups 0 new_input None groups headers = Raise TypeError.
Proof.
  destruct new_input as [|r rs]; [done|]. intros _. simpl.
  by destruct groups.
Qed.

End RowGroups.


Section EngineMore.
Context {sexp : Type}.
Variable cast_value : descriptor → value → result value.
Variable evaluate_sexp : option sexp → gmap string descriptor → option string.
Variable eval_and_apply_sexp :
  option sexp → gmap string descriptor → list (list value) →
  list (list value).

Local Abbreviation build := (_input_array cast_value).
Local Abbreviation engine :=
  (apply_transformations evaluate_sexp eval_and_apply_sexp).
Local Abbreviation transform_rows :=
  (_transform evaluate_sexp eval_and_apply_sexp).
Local Abbreviation run :=
  (transform cast_value evaluate_sexp eval_and_apply_sexp).
Local Abbreviation passes :=
  (applies evaluate_sexp eval_and_apply_sexp).
Local Abbreviation results_of flds input_arrays gens :=
  ((fun g : new_field sexp =>
      eval_and_apply_sexp (field g) flds input_arrays) <$> gens).
Local Abbreviation headers_of flds input_arrays gens :=
  (concat ((fun g : new_field sexp =>
              repeated_names g
                (eval_and_apply_sexp (field g) flds input_arrays))
             <$> gens)).

Implicit Types (self : Dataset sexp) (gens : list (new_field sexp)).
Implicit Types (input_arrays groups : list (list value)).

Lemma engine_merge flds input_arrays gens groups headers :
  Forall (passes flds input_arrays) gens →
  engine flds input_arrays gens groups headers
  = OK (fold_left merge_groups (results_of flds input_arrays gens) groups,
        headers ++ headers_of flds input_arrays gens).
Proof.
  intros H. revert groups headers.
  induction H as [|g gens [Hcheck Hnames] _ IH]; intros groups headers.
  - simpl. by rewrite app_nil_r.
  - cbn [apply_transformations]. rewrite Hcheck.
    rewrite !fmap_cons. cbn [fold_left concat]. unfold repeated_names at 1.
    destruct (names g) as [ns|].
    + rewrite (extend_groups_merge _ ns [] groups headers). simpl.
      rewrite IH. by rewrite <- app_assoc.
    + rewrite Hnames by done. simpl. rewrite merge_groups_nil_r. apply IH.
Qed.

(** The engine gets through no other generators. *)
Lemma engine_passes flds input_arrays gens groups headers st :
  engine flds input_arrays gens groups headers = OK st →
  Forall (passes flds input_arrays) gens.
Proof.
  revert groups headers.
  induction gens as [|g gens IH]; intros groups headers Hengine;
    [constructor|].
  cbn [apply_transformations] in Hengine.
  destruct (evaluate_sexp (field g) flds) eqn:Hcheck; [done|].
  destruct (extend_groups _ _ _ _ _) as [[groups1 headers1]|] eqn:Hext;
    [|done].
  constructor; [|by eapply IH].
  split; [done|]. intros Hnone. rewrite Hnone in Hext.
  destruct (eval_and_apply_sexp _ _ _) as [|r rs]; [done|].
  by rewrite extend_groups_no_names in Hext.
Qed.

Lemma transform_rows_merge self inf gens input_arrays :
  in_fields self = Some inf →
  transformations self = Some gens →
  Forall (passes (fields inf) input_arrays) gens →
  transform_rows self input_arrays
  = OK (headers_of (fields inf) input_arrays gens,
        fold_left merge_groups (results_of (fields inf) input_arrays gens) []).
Proof.
  intros Hin Hgens Hall. unfold _transform. rewrite Hin, Hgens. simpl.
  rewrite engine_merge by done. simpl.
  by rewrite (copy_groups_app _ []).
Qed.

(** X13. The rows [_transform] returns: as many as the longest
    generator result has rows, output row [k] being made of the result
    rows [k] of the generators that have one, in the order of the
    generators. *)
Theorem transform_rows_row_groups self inf gens input_arrays
    out_headers out_arrays :
  in_fields self = Some inf →
  transformations self = Some gens →
  transform_rows self input_arrays = OK (out_headers, out_arrays) →
  length out_arrays
  = max_list (length <$> results_of (fields inf) input_arrays gens)
  ∧ ∀ k, k < length out_arrays →
      out_arrays !! k
      = Some (row_group k (results_of (fields inf) input_arrays gens)).
Proof.
  intros Hin Hgens H.
  assert (Forall (passes (fields inf) input_arrays) gens) as Hall.
  { unfold _transform in H. rewrite Hin, Hgens in H. simpl in H.
    destruct (engine _ _ _ _ _) as [st|] eqn:Hengine; [|done].
    by eapply engine_passes. }
  rewrite (transform_rows_merge self inf gens) in H by done.
  injection H as _ <-.
  destruct (merge_all_groups
              (results_of (fields inf) input_arrays gens) [])
    as [Hlen Hlookup].
  simpl in Hlen, Hlookup. split; [done|].
  intros k Hk. by rewrite Hlookup by lia.
Qed.

(** X14. The headers [_transform] returns: the names of each generator in
    turn, repeated once per row of that generator's result (none for a
    result without rows, twice and more for a result of several rows). *)
Theorem transform_rows_headers self inf gens input_arrays
    out_headers out_arrays :
  in_fields self = Some inf →
  transformations self = Some gens →
  _transform evaluate_sexp eval_and_apply_sexp self input_arrays
  = OK (out_headers, out_arrays) →
  out_headers = headers_of (fields inf) input_arrays gens.
Proof.
  intros Hin Hgens H.
  assert (Forall (passes (fields inf) input_arrays) gens) as Hall.
  { unfold _transform in H. rewrite Hin, Hgens in H. simpl in H.
    destruct (engine _ _ _ _ _) as [st|] eqn:Hengine; [|done].
    by eapply engine_passes. }
  rewrite (transform_rows_merge self inf gens) in H by done.
  by injection H as <- _.
Qed.

(** X15. [_transform] returns only after every generator has passed its
    check, and has names unless its result has no row: on a node with
    input schema and transformations, a returned result means that no
    check reported an error and no generator without names emitted a
    row. *)
Theorem transform_rows_returns_only_if self inf gens input_arrays r :
  in_fields self = Some inf →
  transformations self = Some gens →
  _transform evaluate_sexp eval_and_apply_sexp self input_arrays = OK r →
  Forall (applies evaluate_sexp eval_and_apply_sexp (fields inf)
            input_arrays) gens.
Proof.
  intros Hin Hgens H. unfold _transform in H. rewrite Hin, Hgens in H.
  simpl in H.
  destruct (engine _ _ _ _ _) as [st|] eqn:Hengine; [|done].
  by eapply engine_passes.
Qed.

(** X16. A generator without names whose result has a row stops
    [_transform] with TypeError, once the generators before it have been
    applied and its own check has passed. *)
Theorem transform_rows_without_names self inf input_arrays pre g post st :
  in_fields self = Some inf →
  transformations self = Some (pre ++ g :: post) →
  engine (fields inf) input_arrays pre [] [] = OK st →
  evaluate_sexp (field g) (fields inf) = None →
  names g = None →
  eval_and_apply_sexp (field g) (fields inf) input_arrays ≠ [] →
  transform_rows self input_arrays = Raise TypeError.
Proof.
  intros Hin Hgens Hpre Hcheck Hnames Hrows.
  unfold _transform. rewrite Hin, Hgens. simpl.
  rewrite engine_app, Hpre. destruct st as [groups headers]. simpl.
  rewrite Hcheck, Hnames.
  by rewrite extend_groups_no_names by done.
Qed.

(** X17. The last loop of [_transform] returns the row groups as they
    are; the IndexError it guards against never escapes. *)
Theorem copy_groups_unchanged (groups : list (list value)) :
  copy_groups 0 groups [] = OK groups.
Proof. apply (copy_groups_app groups []). Qed.

Lemma mapM_build_app self (pre post : list (Py.dict value)) :
  mapM (build self) (pre ++ post)
  = rows ← mapM (build self) pre;
    rows' ← mapM (build self) post;
    OK (rows ++ rows').
Proof.
  induction pre as [|r pre IH]; simpl.
  - by destruct (mapM _ post).
  - destruct (build self r) as [row|]; [|done]. simpl.
    rewrite IH. destruct (mapM _ pre) as [rows|]; [|done]. simpl.
    by destruct (mapM _ post).
Qed.

(** X18. [transform] builds all the rows before it applies anything: the
    error of the first record the row builder rejects is what it raises,
    whatever the generators and the later records are. *)
Theorem transform_first_rejected_record self
    (pre post : list (Py.dict value)) record e :
  Forall (fun r => succeeds (build self r) = true) pre →
  build self record = Raise e →
  run self (pre ++ record :: post) = Raise e.
Proof.
  intros Hpre Hrecord. unfold transform. rewrite mapM_build_app.
  destruct (mapM_build_succeeds cast_value self pre Hpre) as [rows ->].
  simpl. by rewrite Hrecord.
Qed.

(** X19. The records [transform] returns: one per output row of
    [_transform], so as many as the longest generator result has rows
    (not as many as there are input records), record [k] being the
    headers zipped with the result rows [k]. *)
Theorem transform_records self inf gens (records : list (Py.dict value))
    input_arrays out :
  in_fields self = Some inf →
  transformations self = Some gens →
  mapM (build self) records = OK input_arrays →
  run self records = OK out →
  length out
  = max_list (length <$> results_of (fields inf) input_arrays gens)
  ∧ ∀ k, k < length out →
      out !! k
      = Some (assemble (headers_of (fields inf) input_arrays gens)
                (row_group k (results_of (fields inf) input_arrays gens))).
Proof.
  intros Hin Hgens Hrows H. unfold transform in H. rewrite Hrows in H.
  simpl in H.
  destruct (transform_rows self input_arrays) as [[hs arrs]|] eqn:Hrun;
    [|done].
  simpl in H. injection H as <-.
  pose proof (transform_rows_merge self inf gens input_arrays Hin Hgens) as Hm.
  assert (Forall (passes (fields inf) input_arrays) gens) as Hall.
  { unfold _transform in Hrun. rewrite Hin, Hgens in Hrun. simpl in Hrun.
    destruct (engine _ _ _ _ _) as [st|] eqn:Hengine; [|done].
    by eapply engine_passes. }
  rewrite Hm in Hrun by done. injection Hrun as <- <-.
  destruct (merge_all_groups
              (results_of (fields inf) input_arrays gens) [])
    as [Hlen Hlookup].
  simpl in Hlen, Hlookup. rewrite length_map. split; [done|].
  intros k Hk. rewrite list_lookup_fmap. by rewrite Hlookup by lia.
Qed.

End EngineMore.

(** ** The output assembler, continued *)

Section AssemblerMore.
Implicit Types (headers : list string) (row : list value).

Lemma set_fresh {V} k (v : V) (d : Py.dict V) :
  k ∉ d.*1 → Py.set k v d = d ++ [(k, v)].
Proof.
  induction d as [|[k' v'] d IH]; simpl; [done|].
  intros Hnotin. apply not_elem_of_cons in Hnotin as [Hne Hnotin].
  rewrite decide_False by done. by rewrite IH.
Qed.

Lemma insert_pairs_fresh {V} (pairs : list (string * V)) (d : Py.dict V) :
  NoDup (d ++ pairs).*1 →
  fold_left (fun d kv => Py.set kv.1 kv.2 d) pairs d = d ++ pairs.
Proof.
  revert d. induction pairs as [|[k v] pairs IH]; intros d Hnd; simpl.
  - by rewrite app_nil_r.
  - rewrite set_fresh.
    + rewrite IH; rewrite <- app_assoc; done.
    + rewrite fmap_app in Hnd. apply NoDup_app in Hnd as (_ & Hdisj & _).
      intros Hin. apply (Hdisj k Hin). simpl. apply elem_of_cons. by left.
Qed.

Lemma fst_zip_take headers row :
  (zip headers row).*1 = take (length row) headers.
Proof.
  revert row. induction headers as [|h headers IH]; intros [|v row]; simpl;
    try done. by rewrite IH.
Qed.


Lemma is_Some_get_insert_pairs {V} k (pairs : list (string * V))
    (d : Py.dict V) :
  is_Some (Py.get k (fold_left (fun d kv => Py.set kv.1 kv.2 d) pairs d))
  ↔ k ∈ pairs.*1 ∨ is_Some (Py.get k d).
Proof.
  revert d. induction pairs as [|[k' v] pairs IH]; intros d; simpl.
  - split; [by right|]. intros [Hin|?]; [|done]. by apply elem_of_nil in Hin.
  - rewrite IH. rewrite elem_of_cons.
    destruct (decide (k' = k)) as [->|Hne].
    + rewrite get_set_eq. split; [intros _; by left; left|].
      intros _. right. by eexists.
    + rewrite get_set_ne by done. split.
      * intros [?|?]; [left; by right | by right].
      * intros [[?|?]|?]; [congruence | by left | by right].
Qed.

Lemma assemble_zip headers row :
  NoDup headers →
  assemble headers row = zip headers row.
Proof.
  intros Hnd. unfold assemble, Py.of_pairs.
  rewrite insert_pairs_fresh; [done|]. simpl. rewrite fst_zip_take.
  apply (sublist_NoDup _ headers); [done | apply sublist_take].
Qed.

Lemma NoDup_assemble headers row : NoDup (assemble headers row).*1.
Proof. apply NoDup_insert_pairs. simpl. apply NoDup_nil_2. Qed.

(** X20. With headers that are all different the record is the list of
    the pairs (header, value) in the order of the headers, cut at the
    shorter of the two sequences: nothing is overwritten and nothing
    moves, and each header reads the value at its own position. *)
Theorem assemble_distinct_headers headers row :
  NoDup headers →
  assemble headers row = zip headers row
  ∧ ∀ i h v, headers !! i = Some h → row !! i = Some v →
      Py.get h (assemble headers row) = Some v.
Proof.
  intros Hnd. split; [by apply assemble_zip|].
  intros i h v Hh Hv. apply elem_of_get_Some.
  - apply NoDup_assemble.
  - rewrite assemble_zip by done. apply list_elem_of_lookup. exists i.
    rewrite lookup_zip_with, Hh. simpl. by rewrite Hv.
Qed.

(** X21. The keys of a record: every key once, and a name is a key
    exactly when it is one of the headers that have a value in the row
    (the first [len row] of them). *)
Theorem assemble_keys headers row :
  NoDup (assemble headers row).*1
  ∧ ∀ h, is_Some (Py.get h (assemble headers row))
         ↔ h ∈ take (length row) headers.
Proof.
  split; [apply NoDup_assemble|]. unfold assemble, Py.of_pairs.
  intros h. rewrite is_Some_get_insert_pairs, fst_zip_take. simpl.
  split; [intros [?|[? ?]]; done | by left].
Qed.

End AssemblerMore.

(** ** From one record to one record *)

Section OneRecord.
Context {sexp : Type}.
Variable cast_value : descriptor → value → result value.
Variable evaluate_sexp : option sexp → gmap string descriptor → option string.
Variable eval_and_apply_sexp :
  option sexp → gmap string descriptor → list (list value) →
  list (list value).

Local Abbreviation build := (_input_array cast_value).
Local Abbreviation run :=
  (transform cast_value evaluate_sexp eval_and_apply_sexp).
Local Abbreviation single :=
  (one_row evaluate_sexp eval_and_apply_sexp).
Local Abbreviation results_of flds input_arrays gens :=
  ((fun g : new_field sexp =>
      eval_and_apply_sexp (field g) flds input_arrays) <$> gens).
Local Abbreviation all_names gens :=
  (concat ((fun g : new_field sexp => default [] (names g)) <$> gens)).

Implicit Types (self : Dataset sexp) (gens : list (new_field sexp)).

Lemma one_row_facts flds input_arrays gens :
  Forall (single flds input_arrays) gens →
  Forall (applies evaluate_sexp eval_and_apply_sexp flds input_arrays) gens
  ∧ concat ((fun g : new_field sexp =>
               repeated_names g
                 (eval_and_apply_sexp (field g) flds input_arrays))
              <$> gens) = all_names gens
  ∧ (gens ≠ [] →
     max_list (length <$> results_of flds input_arrays gens) = 1)
  ∧ length (row_group 0 (results_of flds input_arrays gens))
    = length (all_names gens).
Proof.
  induction 1 as [|g gens (Hcheck & ns & columns & Hns & Hrun & Hlen) Hall
                    (IH1 & IH2 & IH3 & IH4)].
  - repeat split; done.
  - repeat split.
    + constructor; [|done]. split; [done|]. by rewrite Hns.
    + rewrite !fmap_cons. cbn [concat]. rewrite IH2.
      unfold repeated_names. rewrite Hrun, Hns. simpl.
      by rewrite app_nil_r.
    + intros _. rewrite !fmap_cons. cbn [max_list_with]. rewrite Hrun.
      change (id (length [columns])) with 1.
      destruct (decide (gens = [])) as [->|Hne]; [done|].
      by rewrite IH3 by done.
    + rewrite !fmap_cons, row_group_cons. cbn [concat].
      rewrite !length_app, IH4, Hrun, Hns. simpl. lia.
Qed.

(** X22. One row per generator gives one record. When every generator
    passes its check and returns one row with a column per name, and the
    names are all different, [transform] returns a single record: the
    names of the generators, in order, each with the column computed for
    it. *)
Theorem transform_single_record self inf gens
    (records : list (Py.dict value)) input_arrays :
  in_fields self = Some inf →
  transformations self = Some gens →
  gens ≠ [] →
  mapM (build self) records = OK input_arrays →
  Forall (single (fields inf) input_arrays) gens →
  NoDup (all_names gens) →
  run self records
  = OK [zip (all_names gens)
          (row_group 0 (results_of (fields inf) input_arrays gens))]
  ∧ length (row_group 0 (results_of (fields inf) input_arrays gens))
    = length (all_names gens).
Proof.
  intros Hin Hgens Hne Hrows Hall Hnd.
  destruct (one_row_facts _ _ _ Hall) as (Hpass & Hnames & Hmax & Hlen).
  split; [|done].
  unfold transform. rewrite Hrows. simpl.
  rewrite (transform_rows_merge evaluate_sexp eval_and_apply_sexp
             self inf gens input_arrays) by done.
  simpl. rewrite Hnames.
  destruct (merge_all_groups
              (results_of (fields inf) input_arrays gens) [])
    as [Hl Hlookup].
  simpl in Hl, Hlookup. rewrite Hmax in Hl, Hlookup by done.
  specialize (Hlookup 0 ltac:(lia)). simpl in Hlookup.
  destruct (fold_left merge_groups _ _) as [|row [|? ?]]; try done.
  simpl in Hlookup. injection Hlookup as ->. simpl.
  by rewrite assemble_zip.
Qed.

End OneRecord.

(** ** The order of the record entries *)

Section RecordOrder.
Context {sexp : Type}.
Variable cast_value : descriptor → value → result value.

Local Abbreviation build := (_input_array cast_value).
Local Abbreviation casted := (cast cast_value).

Implicit Types (self : Dataset sexp) (inf : Fields).
Implicit Types (record : list (string * value)) (d : Py.dict value).

Lemma cast_keys d flds d' : casted d flds = OK d' → d'.*1 = d.*1.
Proof.
  revert d'. induction d as [|[k v] d IH]; intros d'; simpl.
  - by intros [= <-].
  - destruct (match flds !! k with
              | Some desc => cast_value desc v
              | None => OK v
              end) as [v'|]; [|done]. simpl.
    destruct (casted d flds) as [rest|]; [|done]. simpl.
    intros [= <-]. rewrite !fmap_cons. simpl. f_equal. by apply IH.
Qed.

Lemma cast_Permutation d1 d2 flds d1' :
  d1 ≡ₚ d2 →
  casted d1 flds = OK d1' →
  ∃ d2', casted d2 flds = OK d2' ∧ d1' ≡ₚ d2'.
Proof.
  intros Hperm. revert d1'.
  induction Hperm as [|[k v] l1 l2 _ IH|[k1 v1] [k2 v2] l|l1 l2 l3 _ IH1 _ IH2];
    intros d1'; simpl.
  - intros [= <-]. by exists [].
  - destruct (match flds !! k with
              | Some desc => cast_value desc v
              | None => OK v
              end) as [v'|]; [|done]. simpl.
    destruct (casted l1 flds) as [rest|]; [|done]. simpl.
    intros [= <-]. destruct (IH rest) as (rest' & -> & Hrest); [done|].
    simpl. eexists. split; [done|]. by constructor.
  - destruct (match flds !! k2 with
              | Some desc => cast_value desc v2
              | None => OK v2
              end) as [v2'|]; [|done]. simpl.
    destruct (match flds !! k1 with
              | Some desc => cast_value desc v1
              | None => OK v1
              end) as [v1'|]; [|done]. simpl.
    destruct (casted l flds) as [rest|]; [|done]. simpl.
    intros [= <-]. eexists. split; [done|]. apply perm_swap.
  - intros H1. destruct (IH1 _ H1) as (d2' & H2 & Hp12).
    destruct (IH2 _ H2) as (d3' & H3 & Hp23).
    exists d3'. split; [done | by etrans].
Qed.

Lemma get_Permutation d1 d2 k :
  NoDup d1.*1 → d1 ≡ₚ d2 → Py.get k d1 = Py.get k d2.
Proof.
  intros Hnd Hperm.
  assert (NoDup d2.*1) as Hnd2 by (by rewrite <- Hperm).
  destruct (Py.get k d1) as [v|] eqn:H1.
  - symmetry. apply elem_of_get_Some; [done|].
    rewrite <- Hperm. by apply get_Some_elem_of.
  - destruct (Py.get k d2) as [v|] eqn:H2; [|done].
    apply get_Some_elem_of in H2. rewrite <- Hperm in H2.
    apply elem_of_get_Some in H2; [congruence | done].
Qed.

(** X23. The order of the entries of a record does not matter as long as
    no two of them resolve to the same field: the row builder returns the
    same row for any rearrangement of such a record. *)
Theorem input_array_order_irrelevant self inf nms ids record record' row :
  in_fields self = Some inf →
  in_header_names self = Some nms →
  in_header_ids self = Some ids →
  NoDup ((fun kv => resolve_key inf kv.1) <$> record) →
  record ≡ₚ record' →
  build self record = OK row →
  build self record' = OK row.
Proof.
  intros Hin Hnms Hids Hnd Hperm.
  rewrite !(_input_array_unfold cast_value self inf nms ids) by done.
  assert (∀ r, NoDup ((fun kv => resolve_key inf kv.1) <$> r) →
               resolved inf r []
               = (fun kv => (resolve_key inf kv.1, kv.2)) <$> r) as Hres.
  { intros r Hr. rewrite resolved_as_pairs.
    rewrite insert_pairs_fresh; [done|]. simpl.
    by rewrite <- list_fmap_compose. }
  rewrite !Hres; [|by rewrite <- Hperm | done].
  destruct (casted _ (fields inf)) as [d|] eqn:Hcast; [|done]. simpl.
  intros [= <-].
  destruct (cast_Permutation _
              ((fun kv => (resolve_key inf kv.1, kv.2)) <$> record')
              _ _ (fmap_Permutation _ _ _ Hperm) Hcast)
    as (d' & -> & Hd).
  simpl. f_equal. unfold row_of. apply map_ext. intros id.
  rewrite (get_Permutation d d'); [done | | done].
  rewrite (cast_keys _ _ _ Hcast). by rewrite <- list_fmap_compose.
Qed.

End RecordOrder.

(** ** The further properties at concrete inputs *)

Section MoreInstances.
Import Scenario.

Lemma sorted_headers_aligned_witness :
  sorted_headers schema = OK (["a"; "b"], ["000000"; "000001"])
  ∧ length ["a"; "b"] = length (fields_columns schema)
  ∧ length ["000000"; "000001"] = length (fields_columns schema).
Proof.
  split; [reflexivity|].
  destruct (sorted_headers_aligned schema ["a"; "b"] ["000000"; "000001"])
    as (H1 & H2 & _); [reflexivity|].
  split; [exact H1 | exact H2].
Defined.

Lemma constructed_node_shape_witness :
  Cases.construct 2 "dataset/2" = OK Cases.derived
  ∧ in_fields Cases.derived = Some schema
  ∧ ∃ origin, Cases.construct 1 "dataset/1" = OK origin
              ∧ origin_dataset Cases.derived = Some origin
              ∧ out_fields origin = in_fields Cases.derived.
Proof.
  assert (Cases.construct 2 "dataset/2" = OK Cases.derived) as Hn
    by (vm_compute; reflexivity).
  split; [exact Hn|]. split; [vm_compute; reflexivity|].
  destruct (constructed_node_shape Cases.get_resource_dict get_status
              FINISHED "en_US" Fields_new (fun id => id) 2 "dataset/2"
              (Some "dataset/2")
              (wrapped (info 5 (Some "dataset/1")
                          (Some [{| of_generator := Some Sum_a_b;
                                    of_names := Some ["sum"] |}])))
              Cases.derived ltac:(vm_compute; reflexivity) Hn)
    as [(Hnone & _)|(depth' & id & origin & inf & nms & ids & Hdepth & Hid
                     & _ & Hcons & Horigin & Hout & Hin & _)].
  - vm_compute in Hnone. discriminate Hnone.
  - exists origin. injection Hdepth as <-. injection Hid as <-.
    split; [exact Hcons|]. split; [exact Horigin|]. by rewrite Hout, Hin.
Defined.

Lemma constructed_transformations_witness :
  Cases.construct 2 "dataset/2" = OK Cases.derived
  ∧ transformations Cases.derived = Some [sum]
  ∧ length [sum] = 1.
Proof.
  assert (Cases.construct 2 "dataset/2" = OK Cases.derived) as Hn
    by (vm_compute; reflexivity).
  assert (transformations Cases.derived = Some [sum]) as Hgens
    by reflexivity.
  split; [exact Hn|]. split; [exact Hgens|].
  destruct (constructed_transformations Cases.get_resource_dict get_status
              FINISHED "en_US" Fields_new (fun id => id) 2 "dataset/2"
              Cases.derived (Some "dataset/2")
              (wrapped (info 5 (Some "dataset/1")
                          (Some [{| of_generator := Some Sum_a_b;
                                    of_names := Some ["sum"] |}])))
              [sum] Hn)
    as (_ & Hlen & _); [vm_compute; reflexivity | exact Hgens |].
  exact Hlen.
Defined.

Lemma construct_origin_without_schema_witness :
  Cases.construct 1 "dataset/4" = OK Cases.unfinished
  ∧ out_fields Cases.unfinished = None
  ∧ Cases.construct 2 "dataset/5" = Raise AttributeError.
Proof.
  assert (Cases.construct 1 "dataset/4" = OK Cases.unfinished) as Hn
    by (vm_compute; reflexivity).
  split; [exact Hn|]. split; [reflexivity|].
  apply (construct_origin_without_schema Cases.get_resource_dict get_status
           FINISHED "en_US" Fields_new (fun id => id) 1 "dataset/5"
           (Some "dataset/5")
           (wrapped (info 5 (Some "dataset/4")
                       (Some [{| of_generator := Some Sum_a_b;
                                 of_names := Some ["sum"] |}])))
           (fields schema) schema ["a"; "b"] ["000000"; "000001"] ""
           Cases.unfinished);
    reflexivity.
Defined.

Lemma construct_without_description_witness :
  p_description
    (dataset_of
       (wrapped {| p_fields := Some (fields schema);
                   p_status := Some (Some 5%Z);
                   p_description := None;
                   p_locale := None;
                   p_rows := None;
                   p_output_fields := None;
                   p_origin_dataset := None |})) = None
  ∧ Cases.construct 1 "dataset/6" = Raise KeyError.
Proof.
  split; [reflexivity|].
  apply (construct_without_description Cases.get_resource_dict get_status
           FINISHED "en_US" Fields_new (fun id => id) 0 "dataset/6"
           (Some "dataset/6")
           (wrapped {| p_fields := Some (fields schema);
                       p_status := Some (Some 5%Z);
                       p_description := None;
                       p_locale := None;
                       p_rows := None;
                       p_output_fields := None;
                       p_origin_dataset := None |})
           (fields schema) schema ["a"; "b"] ["000000"; "000001"]);
    reflexivity.
Defined.

Lemma construct_depth_monotone_witness :
  Cases.construct 1 "dataset/1" = OK Cases.raw
  ∧ Cases.construct 4 "dataset/1" = OK Cases.raw.
Proof.
  assert (Cases.construct 1 "dataset/1" = OK Cases.raw) as Hn
    by (vm_compute; reflexivity).
  split; [exact Hn|].
  apply (construct_depth_monotone Cases.get_resource_dict get_status
           FINISHED "en_US" Fields_new (fun id => id) 1 4 "dataset/1"
           Cases.raw Hn).
  lia.
Defined.

Lemma input_array_empty_record_witness :
  in_fields (node None) = Some schema
  ∧ in_header_ids (node None) = Some ["000000"; "000001"]
  ∧ build_row (node None) [] = OK [VNone; VNone].
Proof.
  split; [reflexivity|]. split; [reflexivity|].
  apply (input_array_empty_record cast_value (node None) schema
           ["000000"; "000001"]); reflexivity.
Defined.

Lemma schema_names_are_fields :
  ∀ n id, fields_by_name schema !! n = Some id →
          is_Some (fields schema !! id).
Proof.
  intros n id H. unfold schema in *. simpl in *.
  destruct (decide (n = "a")) as [->|Ha].
  - vm_compute in H. injection H as <-. by eexists.
  - destruct (decide (n = "b")) as [->|Hb].
    + vm_compute in H. injection H as <-. by eexists.
    + rewrite lookup_insert_ne in H by done.
      rewrite lookup_singleton_ne in H by done. done.
Defined.

Lemma input_array_keys_resolved_first_witness :
  build_row (node None) [("000000", VInt 2); ("000001", VInt 3)]
  = build_row (node None) [("a", VInt 2); ("000001", VInt 3)].
Proof.
  apply (input_array_keys_resolved_first cast_value (node None) schema
           ["a"; "b"] ["000000"; "000001"]
           [("a", VInt 2); ("000001", VInt 3)]);
    try reflexivity.
  exact schema_names_are_fields.
Defined.

Lemma input_array_last_entry_wins_witness :
  build_row (node None) [("000000", VInt 9); ("b", VInt 3); ("a", VInt 2)]
  = OK [VInt 2; VInt 3]
  ∧ ∃ cell, [VInt 2; VInt 3] !! 0 = Some cell
            ∧ cast_value (numeric "a") (VInt 2) = OK cell.
Proof.
  split; [reflexivity|].
  apply (input_array_last_entry_wins cast_value (node None) schema
           ["a"; "b"] ["000000"; "000001"]
           [("000000", VInt 9); ("b", VInt 3); ("a", VInt 2)]
           [VInt 2; VInt 3] 2 "a" (VInt 2) 0 "000000" (numeric "a"));
    try reflexivity.
  intros j' key' v' Hlt Hj'.
  destruct j' as [|[|[|j']]]; try lia. discriminate Hj'.
Defined.

Lemma input_array_raises_cast_errors_witness :
  build_row (node None) [("b", VInt 3); ("a", VStr "x")]
  = Raise (CastError "Mismatch input data type")
  ∧ ∃ key v desc,
      (key, v) ∈ [("b", VInt 3); ("a", VStr "x")]
      ∧ fields schema !! resolve_key schema key = Some desc
      ∧ cast_value desc v = Raise (CastError "Mismatch input data type").
Proof.
  split; [reflexivity|].
  apply (input_array_raises_cast_errors cast_value (node None) schema
           ["a"; "b"] ["000000"; "000001"]); reflexivity.
Defined.

Lemma input_array_returns_witness :
  ∃ row, build_row (node None) [("a", VInt 2); ("zzz", VStr "q")] = OK row
         ∧ length row = 2.
Proof.
  apply (input_array_returns cast_value (node None) schema
           ["a"; "b"] ["000000"; "000001"]
           [("a", VInt 2); ("zzz", VStr "q")]);
    try reflexivity.
  intros key v desc Hin Hdesc.
  apply elem_of_cons in Hin as [[= -> ->]|Hin].
  - vm_compute in Hdesc. injection Hdesc as <-. by eexists.
  - apply list_elem_of_singleton in Hin as [= -> ->].
    vm_compute in Hdesc. discriminate Hdesc.
Defined.

Lemma input_array_order_irrelevant_witness :
  build_row (node None) [("b", VInt 3); ("a", VInt 2)]
  = OK [VInt 2; VInt 3]
  ∧ build_row (node None) [("a", VInt 2); ("b", VInt 3)]
    = OK [VInt 2; VInt 3].
Proof.
  split; [reflexivity|].
  apply (input_array_order_irrelevant cast_value (node None) schema
           ["a"; "b"] ["000000"; "000001"]
           [("b", VInt 3); ("a", VInt 2)] [("a", VInt 2); ("b", VInt 3)]);
    try reflexivity.
  - vm_compute. apply NoDup_cons. split.
    + intros Hin. apply list_elem_of_singleton in Hin. discriminate Hin.
    + apply NoDup_singleton.
  - apply perm_swap.
Defined.

Lemma transform_rows_row_groups_witness :
  run_transform_rows (node (Some [sum; Cases.copy_a])) Cases.two_rows
  = OK (["sum"; "sum"; "a2"; "a2"], [[VInt 5; VInt 2]; [VInt 7; VInt 3]])
  ∧ length [[VInt 5; VInt 2]; [VInt 7; VInt 3]]
    = max_list (length <$>
                  ((fun g : new_field sexp =>
                      eval_and_apply_sexp (field g) (fields schema)
                        Cases.two_rows) <$> [sum; Cases.copy_a])).
Proof.
  split; [reflexivity|].
  refine (proj1 (transform_rows_row_groups evaluate_sexp eval_and_apply_sexp
                   (node (Some [sum; Cases.copy_a])) schema
                   [sum; Cases.copy_a] Cases.two_rows
                   ["sum"; "sum"; "a2"; "a2"]
                   [[VInt 5; VInt 2]; [VInt 7; VInt 3]] _ _ _));
    reflexivity.
Defined.

Lemma transform_rows_headers_witness :
  run_transform_rows (node (Some [sum; Cases.copy_a])) Cases.two_rows
  = OK (["sum"; "sum"; "a2"; "a2"], [[VInt 5; VInt 2]; [VInt 7; VInt 3]])
  ∧ ["sum"; "sum"; "a2"; "a2"]
    = concat ((fun g : new_field sexp =>
                 repeated_names g
                   (eval_and_apply_sexp (field g) (fields schema)
                      Cases.two_rows))
                <$> [sum; Cases.copy_a]).
Proof.
  split; [reflexivity|].
  apply (transform_rows_headers evaluate_sexp eval_and_apply_sexp
           (node (Some [sum; Cases.copy_a])) schema [sum; Cases.copy_a]
           Cases.two_rows ["sum"; "sum"; "a2"; "a2"]
           [[VInt 5; VInt 2]; [VInt 7; VInt 3]]); reflexivity.
Defined.

Lemma transform_rows_returns_only_if_witness :
  run_transform_rows (node (Some [sum; Cases.copy_a])) Cases.two_rows
  = OK (["sum"; "sum"; "a2"; "a2"], [[VInt 5; VInt 2]; [VInt 7; VInt 3]])
  ∧ Forall (applies evaluate_sexp eval_and_apply_sexp (fields schema)
              Cases.two_rows) [sum; Cases.copy_a].
Proof.
  split; [reflexivity|].
  apply (transform_rows_returns_only_if evaluate_sexp eval_and_apply_sexp
           (node (Some [sum; Cases.copy_a])) schema [sum; Cases.copy_a]
           Cases.two_rows
           (["sum"; "sum"; "a2"; "a2"], [[VInt 5; VInt 2]; [VInt 7; VInt 3]]));
    reflexivity.
Defined.

Lemma transform_rows_without_names_witness :
  names Cases.unnamed = None
  ∧ run_transform_rows (node (Some [sum; Cases.unnamed; Cases.copy_a]))
      [[VInt 2; VInt 3]] = Raise TypeError.
Proof.
  split; [reflexivity|].
  apply (transform_rows_without_names evaluate_sexp eval_and_apply_sexp
           (node (Some [sum; Cases.unnamed; Cases.copy_a])) schema
           [[VInt 2; VInt 3]] [sum] Cases.unnamed [Cases.copy_a]
           ([[VInt 5]], ["sum"])); try reflexivity.
  discriminate.
Defined.

Lemma transform_first_rejected_record_witness :
  build_row (node (Some [sum])) [("a", VStr "x")]
  = Raise (CastError "Mismatch input data type")
  ∧ run_transform (node (Some [sum]))
      ([[("a", VInt 2); ("b", VInt 3)]]
       ++ [("a", VStr "x")] :: [[("b", VBool true)]])
    = Raise (CastError "Mismatch input data type").
Proof.
  split; [reflexivity|].
  apply (transform_first_rejected_record cast_value evaluate_sexp
           eval_and_apply_sexp (node (Some [sum]))
           [[("a", VInt 2); ("b", VInt 3)]] [[("b", VBool true)]]
           [("a", VStr "x")]).
  - repeat constructor.
  - reflexivity.
Defined.

Lemma transform_records_witness :
  run_transform (node (Some [sum; Cases.copy_a]))
    [[("a", VInt 2); ("b", VInt 3)]; [("a", VInt 3); ("b", VInt 4)]]
  = OK [[("sum", VInt 2)]; [("sum", VInt 3)]]
  ∧ length [[("sum", VInt 2)]; [("sum", VInt 3)]]
    = max_list (length <$>
                  ((fun g : new_field sexp =>
                      eval_and_apply_sexp (field g) (fields schema)
                        Cases.two_rows) <$> [sum; Cases.copy_a])).
Proof.
  split; [reflexivity|].
  refine (proj1 (transform_records cast_value evaluate_sexp
                   eval_and_apply_sexp
                   (node (Some [sum; Cases.copy_a])) schema
                   [sum; Cases.copy_a]
                   [[("a", VInt 2); ("b", VInt 3)];
                    [("a", VInt 3); ("b", VInt 4)]]
                   Cases.two_rows
                   [[("sum", VInt 2)]; [("sum", VInt 3)]] _ _ _ _));
    reflexivity.
Defined.

Lemma assemble_distinct_headers_witness :
  assemble ["sum"; "a2"; "b2"] [VInt 5; VInt 2]
  = [("sum", VInt 5); ("a2", VInt 2)].
Proof.
  destruct (assemble_distinct_headers ["sum"; "a2"; "b2"] [VInt 5; VInt 2])
    as [H _]; [|exact H].
  repeat (apply NoDup_cons; split;
          [intros Hin; repeat (apply elem_of_cons in Hin as [Hin|Hin];
                               [discriminate Hin|]);
           by apply elem_of_nil in Hin|]).
  apply NoDup_nil_2.
Defined.

Lemma transform_single_record_witness :
  run_transform (node (Some [sum; Cases.copy_a]))
    [[("a", VInt 2); ("b", VInt 3)]]
  = OK [[("sum", VInt 5); ("a2", VInt 2)]].
Proof.
  refine (proj1 (transform_single_record cast_value evaluate_sexp
                   eval_and_apply_sexp (node (Some [sum; Cases.copy_a]))
                   schema [sum; Cases.copy_a]
                   [[("a", VInt 2); ("b", VInt 3)]] [[VInt 2; VInt 3]]
                   _ _ _ _ _ _)); try reflexivity.
  - discriminate.
  - repeat constructor; by eexists _, _.
  - simpl. apply NoDup_cons. split.
    + intros Hin. apply list_elem_of_singleton in Hin. discriminate Hin.
    + apply NoDup_singleton.
Defined.

End MoreInstances.
